(** * Mernify: playback synchronisation and whiteboard stroke replay

    A shallow embedding of the state-reconciliation core of the study-room
    client and of the stroke route of the backend:

    - [PlaybackSync]: the component [RoomVideoPlayer]
      (src/components/RoomVideoPlayer.tsx), its remote-update handler and
      its three local reporters;
    - [StrokeStore]: the route [GET /strokes/:roomId]
      (backend/routes/strokes.js) over the [Stroke] model, with the order
      among strokes of equal [created_at] left open;
    - [StrokeSync]: the component [Whiteboard], its drawing routine, its
      broadcast handlers, the [subscribe] callback with the request for
      the history of the room and its replay, and [clearCanvas];
    - [PlaybackMore]: the URL that [RoomVideoPlayer] gives to the player;
    - [StrokeRoutes]: the routes [POST /strokes] and
      [DELETE /strokes/:roomId], and the requests of the whiteboard as
      the routes read them;
    - [Pad]: local drawing on the whiteboard ([startDrawing], [draw],
      [sendBatchedPoints], and [stopDrawing] in its two parts, before and
      after the [await] of its [POST]), the legacy [draw] event and
      [setupCanvas];
    - [RoomsRoute]: paging of [GET /api/rooms], and the playback row that
      [POST /api/rooms] and [PATCH /api/rooms/:id] write;
    - [VideoControls]: the controls that [VideoPlayer] registers.

    Conventions.  A JavaScript number holding seconds or a page bound is
    a binary64 double ([float]) and the arithmetic on it is that of
    IEEE 754, [NaN] and the infinities included.  A time value ([Date.now()], the [getTime()] of a date) is
    an integer number of milliseconds ([Z]): ECMAScript keeps time values
    within 8.64e15 of zero, where doubles hold every integer.  A
    coordinate of a point is only passed on, never computed with, and is
    a rational ([Q]).  A React ref is a field of the state record of its
    component.  A call on an external object (the player controls, the
    canvas context, the network) is logged in a trace, in program order. *)

From Stdlib Require Import ZArith QArith List String Bool Lia Floats.
From Stdlib Require Import Sorting.Sorted Sorting.Permutation.
Import ListNotations.

Set Warnings "-inexact-float".

(* ================================================================== *)
(** * PlaybackSync: [RoomVideoPlayer] *)
(* ================================================================== *)

Module PlaybackSync.

Local Open Scope float_scope.

(** [const SEEK_THRESHOLD = 1.25; // seconds] *)
Definition SEEK_THRESHOLD : float := 1.25.

(** [const UPDATE_THROTTLE_MS = 1500; // ms] *)
Definition UPDATE_THROTTLE_MS : Z := 1500%Z.

(** [row.updated_at] as line 79 reads it: a falsy field, or what
    [new Date(row.updated_at).getTime()] yields, which is [NaN] for a text
    that is not a date and a time value otherwise. *)
Inductive Stamp : Type :=
| StampMissing
| StampInvalid
| StampAt (ms : Z).

(** A row of [room_playback] as the handler reads it.  [playback_time] is
    the double [Number(row.playback_time)], [NaN] when the field does not
    read as a number. *)
Record PlaybackRow : Type := mkRow {
  video_url : option string;
  is_playing : bool;
  playback_time : float;
  updated_at : Stamp;
  updated_by : option string
}.

(** The object passed to [sendLocalUpdate]. *)
Record LocalUpdate : Type := mkUpdate {
  lu_video_url : option string;
  lu_is_playing : bool;
  lu_playback_time : float;
  lu_client_ts : Z;
  lu_updated_by : option string
}.

(** What the handler sees of [playerControlRef.current] (typed [any] in the
    source): each of the three members is tested with [typeof ... ===
    "function"] on its own.  [getCurrentTime = Some t] says that the member
    is a function and that [Number(getCurrentTime())] is the double [t]
    ([NaN], possibly) when called now. *)
Record Controls : Type := mkControls {
  getCurrentTime : option float;
  seekTo : bool;
  setPlaying : bool
}.

(** The refs of the component. *)
Record Refs : Type := mkRefs {
  lastSentRef : Z;
  pendingSeekRef : option float;
  playerControlRef : option Controls;
  isPlayingRef : bool;
  didInitRef : bool;
  suppressEchoRef : bool
}.

(** The props the handlers read; [effectiveUrl] is the value computed in the
    body of the component. *)
Record Props : Type := mkProps {
  effectiveUrl : option string;
  userId : option string;
  onTimeUpdate : bool;      (* the optional callback is given *)
  onSeekComplete : bool     (* the optional callback is given *)
}.

(** Calls that leave the component. *)
Inductive Effect : Type :=
| CallSeekTo (t : float)
| CallSetPlaying (play : bool)
| SetTimeout (ms : Z)              (* () => { suppressEchoRef.current = false } *)
| CallSendLocalUpdate (u : LocalUpdate)
| ConsoleError
| CallOnTimeUpdate (t : float)
| CallOnSeekComplete.

(** Initial refs: [useRef(0)], [useRef(null)], [useRef(null)],
    [useRef(false)], [useRef(false)], [useRef(false)]. *)
Definition initialRefs : Refs := mkRefs 0 None None false false false.

(** ** A state and trace monad for the handlers

    A handler runs on the refs and logs every outgoing call together with
    the refs as they are when the call is made. *)
Definition Trace : Type := list (Refs * Effect).

Definition M (A : Type) : Type := Refs -> A * Refs * Trace.

Definition ret {A} (a : A) : M A := fun r => (a, r, []).

Definition bind {A B} (m : M A) (k : A -> M B) : M B :=
  fun r =>
    let '(a, r1, t1) := m r in
    let '(b, r2, t2) := k a r1 in
    (b, r2, t1 ++ t2).

Definition read {A} (f : Refs -> A) : M A := fun r => (f r, r, []).
Definition write (f : Refs -> Refs) : M unit := fun r => (tt, f r, []).
Definition emit (e : Effect) : M unit := fun r => (tt, r, [(r, e)]).
Definition when (b : bool) (m : M unit) : M unit := if b then m else ret tt.

Declare Scope playback_scope.
Delimit Scope playback_scope with pb.
Notation "x <- m ;; k" := (bind m (fun x => k))
  (at level 61, m at next level, right associativity) : playback_scope.
Notation "m ;; k" := (bind m (fun _ => k))
  (at level 61, right associativity) : playback_scope.
Local Open Scope playback_scope.

Definition set_lastSent (v : Z) (r : Refs) : Refs :=
  mkRefs v (pendingSeekRef r) (playerControlRef r) (isPlayingRef r)
         (didInitRef r) (suppressEchoRef r).
Definition set_pendingSeek (v : option float) (r : Refs) : Refs :=
  mkRefs (lastSentRef r) v (playerControlRef r) (isPlayingRef r)
         (didInitRef r) (suppressEchoRef r).
Definition set_playerControl (v : option Controls) (r : Refs) : Refs :=
  mkRefs (lastSentRef r) (pendingSeekRef r) v (isPlayingRef r)
         (didInitRef r) (suppressEchoRef r).
Definition set_isPlaying (v : bool) (r : Refs) : Refs :=
  mkRefs (lastSentRef r) (pendingSeekRef r) (playerControlRef r) v
         (didInitRef r) (suppressEchoRef r).
Definition set_didInit (v : bool) (r : Refs) : Refs :=
  mkRefs (lastSentRef r) (pendingSeekRef r) (playerControlRef r)
         (isPlayingRef r) v (suppressEchoRef r).
Definition set_suppressEcho (v : bool) (r : Refs) : Refs :=
  mkRefs (lastSentRef r) (pendingSeekRef r) (playerControlRef r)
         (isPlayingRef r) (didInitRef r) v.

(** [v || 0] on the double [v = Number(...)]: [NaN], [0] and [-0] are
    falsy and give [0]. *)
Definition number_or_zero (v : float) : float :=
  if (is_nan v || is_zero v)%bool then 0 else v.

(** The double nearest to an integer (ties to even); it is that integer
    up to 2^53 in magnitude. *)
Definition double_of_Z (z : Z) : float :=
  SF2Prim (binary_normalize prec emax z 0 false).

(** [Date.now() - updatedAtMs] (line 80).  Both operands are time values
    unless the stamp is not a date, so the double the subtraction yields is
    the one nearest to the difference of the two integers; without a stamp
    [updatedAtMs] is [Date.now()] itself. *)
Definition elapsedMs (stamp : Stamp) (now : Z) : float :=
  match stamp with
  | StampMissing => double_of_Z (now - now)
  | StampInvalid => nan
  | StampAt updatedAtMs => double_of_Z (now - updatedAtMs)
  end.

(** [player?.getCurrentTime], [player?.seekTo], [player?.setPlaying]. *)
Definition member_getCurrentTime (player : option Controls) : option float :=
  match player with Some c => getCurrentTime c | None => None end.
Definition member_seekTo (player : option Controls) : bool :=
  match player with Some c => seekTo c | None => false end.
Definition member_setPlaying (player : option Controls) : bool :=
  match player with Some c => setPlaying c | None => false end.

(** Lines 77-82: the expected time of a row read at clock [now] (the reads
    of [Date.now()] within one run of the handler give the same
    millisecond).
<<
  let expectedTime = Number(row.playback_time) || 0;
  if (row.is_playing) {
    const updatedAtMs = row.updated_at ? new Date(row.updated_at).getTime() : Date.now();
    const elapsedSec = (Date.now() - updatedAtMs) / 1000;
    expectedTime += elapsedSec;
  }
>> *)
Definition expectedTime (row : PlaybackRow) (now : Z) : float :=
  let expectedTime := number_or_zero (playback_time row) in
  if is_playing row then
    let elapsedSec := elapsedMs (updated_at row) now / 1000 in
    expectedTime + elapsedSec
  else expectedTime.

(** [diff > SEEK_THRESHOLD], on doubles: false when [diff] is [NaN]. *)
Definition exceeds_threshold (diff : float) : bool := SEEK_THRESHOLD <? diff.

(** Lines 55-70, the branch taken while [didInitRef.current] is false. *)
Definition hydrate (row : PlaybackRow) (player : option Controls) : M unit :=
  write (set_didInit true) ;;
  let initialTime := number_or_zero (playback_time row) in
  if member_seekTo player then
    write (set_suppressEcho true) ;;
    emit (CallSeekTo initialTime) ;;
    when (member_setPlaying player) (emit (CallSetPlaying false)) ;;
    write (set_isPlaying false) ;;
    emit (SetTimeout 250)
  else
    write (set_pendingSeek (Some initialTime)).

(** Lines 74-103, the normal sync logic. *)
Definition reconcile (row : PlaybackRow) (now : Z) (player : option Controls) : M unit :=
  let expected := expectedTime row now in
  let localTime := member_getCurrentTime player in
  match localTime with
  | Some localTime =>
      let diff := abs (localTime - expected) in
      when (exceeds_threshold diff && member_seekTo player)
        (write (set_suppressEcho true) ;;
         emit (CallSeekTo expected) ;;
         emit (SetTimeout 200))
  | None => write (set_pendingSeek (Some expected))
  end ;;
  when (member_setPlaying player) (emit (CallSetPlaying (is_playing row))) ;;
  write (set_isPlaying (is_playing row)).

(** The callback given to [useRoomPlayback] (lines 43-104).  [row = None]
    is a falsy row; [now] is the reading of [Date.now()] during the call. *)
Definition onRemoteUpdate (row : option PlaybackRow) (now : Z) : M unit :=
  match row with
  | None => ret tt
  | Some row =>
      player <- read playerControlRef ;;
      didInit <- read didInitRef ;;
      if negb didInit then hydrate row player
      else
        suppressEcho <- read suppressEchoRef ;;
        if suppressEcho then ret tt
        else reconcile row now player
  end.

(** The timer callbacks of lines 64 and 92. *)
Definition onSuppressTimeout : M unit := write (set_suppressEcho false).

(** The outcome of [await sendLocalUpdate(...)]: it resolves or it throws. *)
Inductive SendOutcome : Type := SendResolved | SendThrew.

Definition sendLocalUpdate (u : LocalUpdate) (o : SendOutcome) : M unit :=
  emit (CallSendLocalUpdate u) ;;
  match o with SendResolved => ret tt | SendThrew => emit ConsoleError end.

(** [handleLocalTimeUpdate] (lines 122-142). *)
Definition handleLocalTimeUpdate (p : Props) (time : float) (now : Z) (o : SendOutcome) : M unit :=
  when (onTimeUpdate p) (emit (CallOnTimeUpdate time)) ;;
  lastSent <- read lastSentRef ;;
  if (now - lastSent <? UPDATE_THROTTLE_MS)%Z then ret tt
  else
    write (set_lastSent now) ;;
    isPlaying <- read isPlayingRef ;;
    sendLocalUpdate (mkUpdate (effectiveUrl p) isPlaying time now (userId p)) o.

(** [handleLocalPlayPause] (lines 145-158). *)
Definition handleLocalPlayPause (p : Props) (isPlaying : bool) (currentTime : float)
           (now : Z) (o : SendOutcome) : M unit :=
  write (set_isPlaying isPlaying) ;;
  sendLocalUpdate (mkUpdate (effectiveUrl p) isPlaying currentTime now (userId p)) o.

(** [handleLocalSeek] (lines 160-176). *)
Definition handleLocalSeek (p : Props) (seekTo : float) (now : Z) (o : SendOutcome) : M unit :=
  when (onTimeUpdate p) (emit (CallOnTimeUpdate seekTo)) ;;
  isPlaying <- read isPlayingRef ;;
  sendLocalUpdate (mkUpdate (effectiveUrl p) isPlaying seekTo now (userId p)) o.

(** [setPlayerControls] (lines 178-184); [controls = None] is a nullish
    argument. *)
Definition setPlayerControls (controls : option Controls) : M unit :=
  write (set_playerControl controls) ;;
  pendingSeek <- read pendingSeekRef ;;
  match pendingSeek with
  | Some t =>
      if member_seekTo controls then
        emit (CallSeekTo t) ;; write (set_pendingSeek None)
      else ret tt
  | None => ret tt
  end.

(** The effect on [seekToTime] (lines 187-197). *)
Definition onSeekToTime (p : Props) (seekToTime : option float) : M unit :=
  match seekToTime with
  | None => ret tt
  | Some t =>
      controls <- read playerControlRef ;;
      if member_seekTo controls then
        emit (CallSeekTo t) ;; when (onSeekComplete p) (emit CallOnSeekComplete)
      else write (set_pendingSeek (Some t))
  end.

(** The player moves on between two handlers: what [getCurrentTime] returns
    changes, the members stay. *)
Definition player_reads (t : float) (r : Refs) : Refs :=
  match playerControlRef r with
  | Some c =>
      match getCurrentTime c with
      | Some _ => set_playerControl (Some (mkControls (Some t) (seekTo c) (setPlaying c))) r
      | None => r
      end
  | None => r
  end.

(** ** Sessions

    Everything that can run on the refs of a mounted component, one
    handler at a time (the event loop is single-threaded). *)
Inductive Action : Type :=
| RemoteUpdate (row : option PlaybackRow) (now : Z)
| SuppressTimeout
| LocalTimeUpdate (time : float) (now : Z) (o : SendOutcome)
| LocalPlayPause (isPlaying : bool) (currentTime : float) (now : Z) (o : SendOutcome)
| LocalSeek (target : float) (now : Z) (o : SendOutcome)
| RegisterControls (controls : option Controls)
| SeekToTime (seekToTime : option float)
| PlayerReads (t : float).

Definition perform (p : Props) (a : Action) : M unit :=
  match a with
  | RemoteUpdate row now => onRemoteUpdate row now
  | SuppressTimeout => onSuppressTimeout
  | LocalTimeUpdate time now o => handleLocalTimeUpdate p time now o
  | LocalPlayPause isPlaying currentTime now o =>
      handleLocalPlayPause p isPlaying currentTime now o
  | LocalSeek target now o => handleLocalSeek p target now o
  | RegisterControls controls => setPlayerControls controls
  | SeekToTime t => onSeekToTime p t
  | PlayerReads t => write (player_reads t)
  end.


(** ** Reading a run *)

Definition refs_after {A} (m : M A) (r : Refs) : Refs := snd (fst (m r)).
Definition trace_of {A} (m : M A) (r : Refs) : Trace := snd (m r).
Definition effects_of {A} (m : M A) (r : Refs) : list Effect := map snd (trace_of m r).

(** The targets of the seeks of a list of calls, in order. *)
Fixpoint seeks (l : list Effect) : list float :=
  match l with
  | [] => []
  | CallSeekTo t :: l => t :: seeks l
  | _ :: l => seeks l
  end.

(** The arguments of the [setPlaying] calls, in order. *)
Fixpoint playing_calls (l : list Effect) : list bool :=
  match l with
  | [] => []
  | CallSetPlaying b :: l => b :: playing_calls l
  | _ :: l => playing_calls l
  end.

(** The updates handed to [sendLocalUpdate], in order. *)
Fixpoint sent (l : list Effect) : list LocalUpdate :=
  match l with
  | [] => []
  | CallSendLocalUpdate u :: l => u :: sent l
  | _ :: l => sent l
  end.



(** The clock readings at which the periodic report of a session hands an
    update to [sendLocalUpdate], in order; the writes of the play/pause and
    seek reporters are not counted. *)
Fixpoint periodic_writes (p : Props) (acts : list Action) (r : Refs) : list Z :=
  match acts with
  | [] => []
  | a :: acts =>
      match a with
      | LocalTimeUpdate _ _ _ => map lu_client_ts (sent (effects_of (perform p a) r))
      | _ => []
      end ++ periodic_writes p acts (refs_after (perform p a) r)
  end.

(** Two clock readings at least one throttle interval apart. *)
Definition spaced (earlier later : Z) : Prop :=
  (UPDATE_THROTTLE_MS <= later - earlier)%Z.

(** What a snapshot does once hydration is over (lines 72-103). *)
Definition synced (row : PlaybackRow) (now : Z) : M unit :=
  player <- read playerControlRef ;;
  suppressEcho <- read suppressEchoRef ;;
  if suppressEcho then ret tt else reconcile row now player.

End PlaybackSync.

(* ================================================================== *)
(** * Strokes: the points of a stroke and the canvas they are drawn on *)
(* ================================================================== *)

Module Drawing.

Local Open Scope Q_scope.

(** A point of a stroke: [{ type: 'start' | 'move', x, y }].  [type] is
    kept as the string the handlers compare. *)
Record Point : Type := mkPoint {
  type : string;
  x : Q;
  y : Q
}.

(** The methods of [CanvasRenderingContext2D] that the component calls.
    [Stroke] records the [strokeStyle] in force when [stroke()] runs. *)
Inductive CanvasCall : Type :=
| BeginPath
| MoveTo (px py : Q)
| LineTo (px py : Q)
| Stroke (style : string)
| ClearRect (rx ry : Z) (w h : Z).

(** [contextRef.current] when it is not null: the property [strokeStyle]
    and the calls made so far, oldest first. *)
Record Context : Type := mkContext {
  strokeStyle : string;
  calls : list CanvasCall
}.

(** [canvasRef.current] when it is not null. *)
Record Canvas : Type := mkCanvas {
  width : Z;
  height : Z
}.

Definition set_strokeStyle (c : string) (ctx : Context) : Context :=
  mkContext c (calls ctx).
Definition call (k : CanvasCall) (ctx : Context) : Context :=
  mkContext (strokeStyle ctx) (calls ctx ++ [k]).

Definition beginPath (ctx : Context) : Context := call BeginPath ctx.
Definition moveTo (px py : Q) (ctx : Context) : Context := call (MoveTo px py) ctx.
Definition lineTo (px py : Q) (ctx : Context) : Context := call (LineTo px py) ctx.
Definition stroke (ctx : Context) : Context := call (Stroke (strokeStyle ctx)) ctx.
Definition clearRect (rx ry w h : Z) (ctx : Context) : Context :=
  call (ClearRect rx ry w h) ctx.

(** The loop of [drawStroke] (lines 120-133), from index [i] on:
<<
  if (point.type === 'start' || isNewPath) {
    context.beginPath(); context.moveTo(point.x, point.y); isNewPath = false;
  } else if (point.type === 'move') {
    context.lineTo(point.x, point.y); context.stroke();
  }
>> *)
Fixpoint drawStroke_loop (points : list Point) (isNewPath : bool) (context : Context)
  : Context :=
  match points with
  | [] => context
  | point :: rest =>
      if (type point =? "start")%string || isNewPath then
        drawStroke_loop rest false (moveTo (x point) (y point) (beginPath context))
      else if (type point =? "move")%string then
        drawStroke_loop rest isNewPath (stroke (lineTo (x point) (y point) context))
      else
        drawStroke_loop rest isNewPath context
  end.

(** [drawStroke] (lines 113-136) on [contextRef.current]. *)
Definition drawStroke (points : list Point) (color : string) (context : option Context)
  : option Context :=
  match context with
  | None => None
  | Some context =>
      if (List.length points =? 0)%nat then Some context
      else
        let currentStrokeStyle := strokeStyle context in
        let context := set_strokeStyle color context in
        let context := drawStroke_loop points true context in
        Some (set_strokeStyle currentStrokeStyle context)
  end.

(** ** What a list of calls paints

    The path rules of the 2D context, for the calls above: [beginPath]
    empties the current path; [moveTo] starts a subpath at its point;
    [lineTo] adds a segment from the last point of the path to its point
    (and only sets the point when the path has none); [stroke] paints every
    segment of the current path in the style in force; [clearRect] wipes
    what was painted. *)
Definition Pt : Type := (Q * Q)%type.
Definition Segment : Type := (Pt * Pt)%type.

Record Surface : Type := mkSurface {
  pen : option Pt;
  path : list Segment;
  ink : list (Segment * string)
}.

Definition blank : Surface := mkSurface None [] [].

Definition paint_call (s : Surface) (k : CanvasCall) : Surface :=
  match k with
  | BeginPath => mkSurface None [] (ink s)
  | MoveTo px py => mkSurface (Some (px, py)) (path s) (ink s)
  | LineTo px py =>
      match pen s with
      | None => mkSurface (Some (px, py)) (path s) (ink s)
      | Some p => mkSurface (Some (px, py)) (path s ++ [(p, (px, py))]) (ink s)
      end
  | Stroke style =>
      mkSurface (pen s) (path s) (ink s ++ map (fun g => (g, style)) (path s))
  | ClearRect _ _ _ _ => mkSurface (pen s) (path s) []
  end.

Definition paint (s : Surface) (l : list CanvasCall) : Surface :=
  fold_left paint_call l s.

Definition coords (p : Point) : Pt := (x p, y p).

(** What the body of the loop of [drawStroke] calls for a point once
    [isNewPath] is false (lines 125-132). *)
Definition point_calls (c : string) (point : Point) : list CanvasCall :=
  if (type point =? "start")%string then [BeginPath; MoveTo (x point) (y point)]
  else if (type point =? "move")%string then [LineTo (x point) (y point); Stroke c]
  else [].

(** The segments of the line through a list of points. *)
Fixpoint polyline (pts : list Pt) : list Segment :=
  match pts with
  | a :: (b :: _) as rest => (a, b) :: polyline rest
  | _ => []
  end.

(** A stroke as [startDrawing] and [draw] build it: a ['start'] point
    followed by ['move'] points. *)
Definition all_moves (pts : list Point) : Prop :=
  Forall (fun q => type q = "move"%string) pts.

End Drawing.

(* ================================================================== *)
(** * StrokeStore: [GET /strokes/:roomId] *)
(* ================================================================== *)

Module StrokeStore.

Import Drawing.
Local Open Scope Z_scope.

(** A document of the [Stroke] model (models/Stroke.js); [created_at] in
    milliseconds. *)
Record StrokeDoc : Type := mkDoc {
  room_id : Z;
  strokes : list Point;
  color : string;
  created_at : Z;
  created_by : option string
}.

(** [Stroke.find({ room_id: n })] on the documents of the collection. *)
Definition find_by_room (n : Z) (collection : list StrokeDoc) : list StrokeDoc :=
  filter (fun d => room_id d =? n) collection.

(** The outcome of awaiting a query: the collection it ran on, or a throw. *)
Inductive Db : Type :=
| DbUp (collection : list StrokeDoc)
| DbThrew.

Inductive Response : Type :=
| Json (status : Z) (body : list StrokeDoc)
| JsonError (status : Z).

Section Ties.

(** MongoDB promises no order among documents whose [created_at] are
    equal.  Which of two such documents the sort puts first is left to
    [tie], about which nothing is assumed. *)
Variable tie : StrokeDoc -> StrokeDoc -> bool.

Definition goes_before (d e : StrokeDoc) : bool :=
  (created_at d <? created_at e) || ((created_at d =? created_at e) && tie d e).

(** [.sort({ created_at: 1 })]: ascending on [created_at]. *)
Fixpoint insert_by_created_at (d : StrokeDoc) (l : list StrokeDoc) : list StrokeDoc :=
  match l with
  | [] => [d]
  | e :: l' =>
      if goes_before d e then d :: l
      else e :: insert_by_created_at d l'
  end.

Definition sort_by_created_at (l : list StrokeDoc) : list StrokeDoc :=
  fold_right insert_by_created_at [] l.

(** The handler of [router.get('/:roomId', ...)] (lines 6-14); [roomId] is
    the number [parseInt(req.params.roomId)]. *)
Definition get_strokes (db : Db) (roomId : Z) : Response :=
  match db with
  | DbUp collection => Json 200 (sort_by_created_at (find_by_room roomId collection))
  | DbThrew => JsonError 500
  end.

End Ties.

(** Ascending creation order of a list of documents. *)
Definition ascending (l : list StrokeDoc) : Prop :=
  Sorted (fun a b => created_at a <= created_at b) l.

End StrokeStore.

(* ================================================================== *)
(** * StrokeSync: [Whiteboard] *)
(* ================================================================== *)

Module StrokeSync.

Import Drawing StrokeStore.

(** An entry of [strokesStoreRef.current]: [{ points, color }]. *)
Record StrokeEntry : Type := mkEntry {
  points : list Point;
  entry_color : string
}.

(** The refs and state of the component that the handlers below touch. *)
Record Whiteboard : Type := mkWhiteboard {
  canvasRef : option Canvas;
  contextRef : option Context;
  userId : string;
  strokesStoreRef : list StrokeEntry;
  currentColor : string
}.

(** [payload.payload] of a [draw_batch] broadcast. *)
Record DrawBatch : Type := mkBatch {
  batch_userId : string;
  batch_points : list Point;
  batch_color : string
}.

(** The outcome of an awaited [fetch]: a response with [ok] set and its
    parsed body, a response with [ok] unset, or a throw. *)
Inductive Fetched (A : Type) : Type :=
| ResponseOk (data : A)
| ResponseNotOk
| FetchThrew.
Arguments ResponseOk {A} data.
Arguments ResponseNotOk {A}.
Arguments FetchThrew {A}.

(** What the client sees of a response of the route. *)
Definition fetched_of (r : Response) : Fetched (list StrokeDoc) :=
  match r with
  | Json status body =>
      if ((200 <=? status) && (status <=? 299))%Z then ResponseOk body else ResponseNotOk
  | JsonError _ => ResponseNotOk
  end.

(** Calls that leave the component towards the channel, the backend and
    the console.  [roomId] is the text of the route parameter, as it goes
    into the URL. *)
Inductive NetCall : Type :=
| ChannelTrack (user_id : string)
| FetchGetStrokes (roomId : string)       (* fetch(`${API_BASE_URL}/strokes/${roomId}`) *)
| FetchDeleteStrokes (roomId : string)    (* the same URL, method DELETE *)
| BroadcastClear (sender : string)
| ConsoleError.

(** How the awaited [channel.track] settles. *)
Inductive Tracked : Type := TrackResolved | TrackThrew.

Definition set_context (c : option Context) (w : Whiteboard) : Whiteboard :=
  mkWhiteboard (canvasRef w) c (userId w) (strokesStoreRef w) (currentColor w).
Definition push_stroke (e : StrokeEntry) (w : Whiteboard) : Whiteboard :=
  mkWhiteboard (canvasRef w) (contextRef w) (userId w) (strokesStoreRef w ++ [e])
               (currentColor w).

(** [setCurrentColor(c)], with the effect of lines 106-110 that runs after
    the render when the colour has changed: it writes the colour into
    [contextRef.current.strokeStyle]. *)
Definition setCurrentColor (c : string) (w : Whiteboard) : Whiteboard :=
  if (c =? currentColor w)%string then w
  else
    mkWhiteboard (canvasRef w) (option_map (set_strokeStyle c) (contextRef w))
                 (userId w) (strokesStoreRef w) c.

(** [drawStroke] of the component: it draws on [contextRef.current]. *)
Definition draw_on_context (pts : list Point) (c : string) (w : Whiteboard) : Whiteboard :=
  set_context (drawStroke pts c (contextRef w)) w.

(** [repaintAll] (lines 41-47). *)
Definition repaintAll (w : Whiteboard) : Whiteboard :=
  match contextRef w with
  | None => w
  | Some _ => fold_left (fun w s => draw_on_context (points s) (entry_color s) w) (strokesStoreRef w) w
  end.

(** The [draw_batch] handler (lines 178-184). *)
Definition on_draw_batch (payload : DrawBatch) (w : Whiteboard) : Whiteboard :=
  if (batch_userId payload =? userId w)%string then w
  else
    let w := draw_on_context (batch_points payload) (batch_color payload) w in
    push_stroke (mkEntry (batch_points payload) (batch_color payload)) w.

(** The [clear] handler (lines 208-215). *)
Definition on_clear (w : Whiteboard) : Whiteboard :=
  match contextRef w, canvasRef w with
  | Some context, Some canvas =>
      set_context (Some (clearRect 0 0 (width canvas) (height canvas) context)) w
  | _, _ => w
  end.

(** The body of [data.forEach] (lines 232-235). *)
Definition replay_one (w : Whiteboard) (s : StrokeDoc) : Whiteboard :=
  let w := draw_on_context (strokes s) (color s) w in
  push_stroke (mkEntry (strokes s) (color s)) w.

(** The [subscribe] callback (lines 217-229) up to the [await] of the
    [fetch]: on the status ['SUBSCRIBED'] the participant is tracked and,
    once that has resolved, the history of the room [roomId] of the
    component is asked for.  ([setIsConnected] is not modelled.) *)
Definition on_subscribe (status : string) (tracked : Tracked) (roomId : string)
           (w : Whiteboard) : list NetCall :=
  if (status =? "SUBSCRIBED")%string then
    ChannelTrack (userId w)
    :: match tracked with
       | TrackResolved => [FetchGetStrokes roomId]
       | TrackThrew => []
       end
  else [].

(** The rest of the [subscribe] callback, from the point where the awaited
    [fetch] settles (lines 230-245). *)
Definition on_strokes_fetched (resp : Fetched (list StrokeDoc)) (w : Whiteboard)
  : Whiteboard * list NetCall :=
  match resp with
  | ResponseOk data =>
      let w := fold_left replay_one data w in
      let w := match rev data with
               | s :: _ => setCurrentColor (color s) w
               | [] => w
               end in
      (w, [])
  | ResponseNotOk | FetchThrew => (w, [ConsoleError])
  end.

(** [clearCanvas] (lines 355-380) in the room [roomId] of the component.
    [del] is how the awaited [DELETE] settles.  The result is [None] when
    [context.clearRect(0, 0, canvas.width, canvas.height)] throws on a null
    ref. *)
Definition clearCanvas (roomId : string) (del : Fetched unit) (w : Whiteboard)
  : option (Whiteboard * list NetCall) :=
  match contextRef w, canvasRef w with
  | Some context, Some canvas =>
      let w := set_context (Some (clearRect 0 0 (width canvas) (height canvas) context)) w in
      let log := match del with
                 | ResponseOk _ => []
                 | ResponseNotOk | FetchThrew => [ConsoleError]
                 end in
      Some (w, [FetchDeleteStrokes roomId] ++ log ++ [BroadcastClear (userId w)])
  | _, _ => None
  end.

(** What the event loop hands to the component after it has joined the
    channel: a live broadcast, or the settling of the initial fetch. *)
Inductive Event : Type :=
| DrawBatchEvent (payload : DrawBatch)
| ClearEvent
| StrokesFetched (resp : Fetched (list StrokeDoc)).

Definition handle (w : Whiteboard) (e : Event) : Whiteboard :=
  match e with
  | DrawBatchEvent payload => on_draw_batch payload w
  | ClearEvent => on_clear w
  | StrokesFetched resp => fst (on_strokes_fetched resp w)
  end.

Definition run (events : list Event) (w : Whiteboard) : Whiteboard :=
  fold_left handle events w.

(** The calls [drawStroke] makes for a stroke, on a context whose
    [strokeStyle] does not matter. *)
Definition calls_of_stroke (pts : list Point) (c : string) : list CanvasCall :=
  match drawStroke pts c (Some (mkContext ""%string [])) with
  | Some context => calls context
  | None => []
  end.

Definition context_calls (w : Whiteboard) : list CanvasCall :=
  match contextRef w with Some context => calls context | None => [] end.

Definition entry_of (s : StrokeDoc) : StrokeEntry := mkEntry (strokes s) (color s).

End StrokeSync.

(* ================================================================== *)
(** * RoomVideoPlayer: the URL given to the player, and sessions of reports *)
(* ================================================================== *)

Module PlaybackMore.

Import PlaybackSync.

(** A URL prop or column as JavaScript sees it. *)
Inductive Url : Type :=
| Undefined
| Null
| Str (s : string).

(** Truthiness: [undefined], [null] and the empty string are falsy. *)
Definition truthy (u : Url) : bool :=
  match u with
  | Str s => negb (s =? "")%string
  | _ => false
  end.

(** [a || b] and [a ?? b]. *)
Definition js_or (a b : Url) : Url := if truthy a then a else b.
Definition js_nullish (a b : Url) : Url :=
  match a with
  | Undefined | Null => b
  | Str _ => a
  end.

(** [latest?.video_url]: [latest = None] is a nullish [latest]. *)
Definition latest_video_url (latest : option Url) : Url :=
  match latest with Some u => u | None => Undefined end.

(** Line 114:
    [(youtubeUrl || initialYoutubeUrl || latest?.video_url) ?? undefined]. *)
Definition effectiveUrl_of (youtubeUrl initialYoutubeUrl : Url) (latest : option Url) : Url :=
  js_nullish (js_or (js_or youtubeUrl initialYoutubeUrl) (latest_video_url latest))
             Undefined.

(** [effectiveUrl ?? null], the [video_url] of every update sent. *)
Definition sent_video_url (effectiveUrl : Url) : option string :=
  match js_nullish effectiveUrl Null with
  | Str s => Some s
  | _ => None
  end.

(** The clock readings of the periodic reports of a session, in order. *)
Fixpoint report_clocks (acts : list Action) : list Z :=
  match acts with
  | [] => []
  | LocalTimeUpdate _ now _ :: acts => now :: report_clocks acts
  | _ :: acts => report_clocks acts
  end.

End PlaybackMore.

(* ================================================================== *)
(** * The stroke routes that write: [POST /strokes], [DELETE /strokes/:roomId] *)
(* ================================================================== *)

Module StrokeRoutes.

Import Drawing StrokeStore StrokeSync.
Local Open Scope Z_scope.

(** How an awaited write on the collection settles. *)
Inductive Outcome : Type := Resolves | Throws.

Inductive PostResponse : Type :=
| PostJson (status : Z) (doc : StrokeDoc)
| PostError (status : Z).

Inductive DeleteResponse : Type :=
| DeleteJson (status : Z)          (* { message: 'Cleared' } *)
| DeleteError (status : Z).

(** The handler of [router.post('/', ...)] (lines 17-26) on the documents
    of the collection, in insertion order.  [created_at] takes its default,
    the clock reading [now]. *)
Definition post_stroke (save : Outcome) (room_id : Z) (strokes : list Point)
           (color : string) (created_by : option string) (now : Z)
           (collection : list StrokeDoc) : list StrokeDoc * PostResponse :=
  let newStroke := mkDoc room_id strokes color now created_by in
  match save with
  | Resolves => (collection ++ [newStroke], PostJson 201 newStroke)
  | Throws => (collection, PostError 500)
  end.

(** The handler of [router.delete('/:roomId', ...)] (lines 29-37);
    [roomId] is the number [parseInt(req.params.roomId)]. *)
Definition delete_strokes (deleteMany : Outcome) (roomId : Z)
           (collection : list StrokeDoc) : list StrokeDoc * DeleteResponse :=
  match deleteMany with
  | Resolves =>
      (filter (fun d => negb (StrokeStore.room_id d =? roomId)) collection, DeleteJson 200)
  | Throws => (collection, DeleteError 500)
  end.

Section Served.

(** [parseInt] on the text of a room id; [None] is [NaN]. *)
Variable parseInt : string -> option Z.

Variable tie : StrokeDoc -> StrokeDoc -> bool.

(** What a request of the whiteboard finds at the backend: the routes read
    [req.params.roomId], the text the client put in the URL, with
    [parseInt].  The result is [None] for a call that is not a request to
    the route, and for a room id that reads as [NaN]: what Mongoose does
    with such a query is not modelled. *)
Definition serve_get (db : Db) (call : NetCall) : option Response :=
  match call with
  | FetchGetStrokes roomId => option_map (get_strokes tie db) (parseInt roomId)
  | _ => None
  end.

Definition serve_delete (deleteMany : Outcome) (call : NetCall)
           (collection : list StrokeDoc) : option (list StrokeDoc * DeleteResponse) :=
  match call with
  | FetchDeleteStrokes roomId =>
      option_map (fun n => delete_strokes deleteMany n collection) (parseInt roomId)
  | _ => None
  end.

End Served.

(** A reading of room ids for the examples: it reads ["7"] as 7, as
    [parseInt] does, and no other text. *)
Definition reads_seven (s : string) : option Z :=
  if (s =? "7")%string then Some 7 else None.

(** What the client sees of the answer to its [DELETE]. *)
Definition deleted_of (r : DeleteResponse) : Fetched unit :=
  match r with
  | DeleteJson status =>
      if ((200 <=? status) && (status <=? 299))%Z then ResponseOk tt else ResponseNotOk
  | DeleteError _ => ResponseNotOk
  end.

End StrokeRoutes.

(* ================================================================== *)
(** * Whiteboard: local drawing, the legacy [draw] event, resize *)
(* ================================================================== *)

Module Pad.

Import Drawing StrokeStore StrokeSync.
Local Open Scope Q_scope.

(** [payload.payload] of a [draw] broadcast. *)
Record DrawEvent : Type := mkDrawEvent {
  draw_userId : string;
  draw_type : string;
  draw_x : Q;
  draw_y : Q;
  draw_color : string
}.

(** Calls that leave the component while the user draws. *)
Inductive PadCall : Type :=
| SendDrawBatch (payload : DrawBatch)
| SendDraw (payload : DrawEvent)
| SetInterval (ms : Z)             (* setInterval(sendBatchedPoints, ms) *)
| ClearInterval
| ClosePath                        (* contextRef.current.closePath() *)
| PostStroke (room_id : option Z) (strokes : list Point) (color : string)
| ConsoleErrorPad.

(** The whiteboard with the refs and state of local drawing.  [roomId] is
    [parseInt(roomId)], [None] when that is not a number; [batchTimerRef]
    says whether an interval is held. *)
Record Pad : Type := mkPad {
  board : Whiteboard;
  roomId : option Z;
  isDrawing : bool;
  pointsBuffer : list Point;
  batchTimerRef : bool;
  currentPathRef : list Point
}.

Definition set_board (b : Whiteboard) (p : Pad) : Pad :=
  mkPad b (roomId p) (isDrawing p) (pointsBuffer p) (batchTimerRef p) (currentPathRef p).

(** [sendBatchedPoints] (lines 139-153). *)
Definition sendBatchedPoints (p : Pad) : Pad * list PadCall :=
  if (List.length (pointsBuffer p) =? 0)%nat then (p, [])
  else
    (mkPad (board p) (roomId p) (isDrawing p) [] (batchTimerRef p) (currentPathRef p),
     [SendDrawBatch (mkBatch (userId (board p)) (pointsBuffer p)
                             (currentColor (board p)))]).

(** [startDrawing] (lines 255-287); [None] when [contextRef.current] is
    null and the first call on it throws. *)
Definition startDrawing (offsetX offsetY : Q) (p : Pad) : option (Pad * list PadCall) :=
  match contextRef (board p) with
  | None => None
  | Some context =>
      let color := currentColor (board p) in
      let context := moveTo offsetX offsetY (beginPath (set_strokeStyle color context)) in
      let point := mkPoint "start" offsetX offsetY in
      Some (mkPad (set_context (Some context) (board p)) (roomId p) true
                  (pointsBuffer p ++ [point]) true [point],
            (if batchTimerRef p then [] else [SetInterval 10])
            ++ [SendDraw (mkDrawEvent (userId (board p)) "start" offsetX offsetY color)])
  end.

(** [draw] (lines 289-316). *)
Definition draw (offsetX offsetY : Q) (p : Pad) : option (Pad * list PadCall) :=
  if negb (isDrawing p) then Some (p, [])
  else
    match contextRef (board p) with
    | None => None
    | Some context =>
        let context := stroke (lineTo offsetX offsetY context) in
        let point := mkPoint "move" offsetX offsetY in
        Some (mkPad (set_context (Some context) (board p)) (roomId p) (isDrawing p)
                    (pointsBuffer p ++ [point]) (batchTimerRef p)
                    (currentPathRef p ++ [point]),
              [SendDraw (mkDrawEvent (userId (board p)) "move" offsetX offsetY
                                     (currentColor (board p)))])
    end.

(** [stopDrawing] (lines 318-353) up to the [await] of line 335.  With a
    path, the stroke is pushed on the stroke store and the [POST] is sent;
    [currentPathRef] keeps the path until the [POST] has settled.  Without
    a path nothing is awaited and line 352 runs at once. *)
Definition stopDrawing (p : Pad) : option (Pad * list PadCall) :=
  match contextRef (board p) with
  | None => None
  | Some _ =>
      let '(p1, flushed) :=
        sendBatchedPoints (mkPad (board p) (roomId p) false (pointsBuffer p)
                                 (batchTimerRef p) (currentPathRef p)) in
      let timer := if batchTimerRef p1 then [ClearInterval] else [] in
      let path := currentPathRef p1 in
      if (0 <? List.length path)%nat then
        let b := push_stroke (mkEntry path (currentColor (board p1))) (board p1) in
        Some (mkPad b (roomId p1) false (pointsBuffer p1) false path,
              [ClosePath] ++ flushed ++ timer
              ++ [PostStroke (roomId p1) path (currentColor (board p1))])
      else
        Some (mkPad (board p1) (roomId p1) false (pointsBuffer p1) false [],
              [ClosePath] ++ flushed ++ timer)
  end.

(** The rest of [stopDrawing] (lines 345-352), which runs once the awaited
    [POST] has settled, on the refs as they are then: a failure is logged,
    and [currentPathRef] is emptied.  [saved] is how the [POST] settled. *)
Definition stopDrawing_settled (saved : Fetched unit) (p : Pad) : Pad * list PadCall :=
  (mkPad (board p) (roomId p) (isDrawing p) (pointsBuffer p) (batchTimerRef p) [],
   match saved with
   | ResponseOk _ => []
   | ResponseNotOk | FetchThrew => [ConsoleErrorPad]
   end).

(** What happens between pointer-down and pointer-up: the pointer moves,
    or the interval fires. *)
Inductive Gesture : Type :=
| MouseMove (offsetX offsetY : Q)
| Tick.

Definition gesture (g : Gesture) (p : Pad) : option (Pad * list PadCall) :=
  match g with
  | MouseMove offsetX offsetY => draw offsetX offsetY p
  | Tick => Some (sendBatchedPoints p)
  end.

(** One handler after another, as long as none throws. *)
Definition andThen (m : option (Pad * list PadCall))
           (k : Pad -> option (Pad * list PadCall)) : option (Pad * list PadCall) :=
  match m with
  | None => None
  | Some (p, calls) =>
      match k p with
      | None => None
      | Some (p', calls') => Some (p', calls ++ calls')
      end
  end.

Fixpoint drag (gs : list Gesture) (p : Pad) : option (Pad * list PadCall) :=
  match gs with
  | [] => Some (p, [])
  | g :: gs => andThen (gesture g p) (drag gs)
  end.

(** A whole stroke: pointer-down, what happens in between, and the
    pointer-up as far as it runs before its [POST] settles. *)
Definition draw_stroke (offsetX offsetY : Q) (gs : list Gesture) (p : Pad)
  : option (Pad * list PadCall) :=
  andThen (andThen (startDrawing offsetX offsetY p) (drag gs)) stopDrawing.

(** The settling of a [POST] as a step among the handlers. *)
Definition settle (saved : Fetched unit) (p : Pad) : option (Pad * list PadCall) :=
  Some (stopDrawing_settled saved p).

(** The points the pointer goes through during a drag. *)
Fixpoint moves (gs : list Gesture) : list Point :=
  match gs with
  | [] => []
  | MouseMove offsetX offsetY :: gs => mkPoint "move" offsetX offsetY :: moves gs
  | Tick :: gs => moves gs
  end.

(** The points broadcast in [draw_batch] events, batch after batch. *)
Fixpoint batched (calls : list PadCall) : list Point :=
  match calls with
  | [] => []
  | SendDrawBatch payload :: calls => batch_points payload ++ batched calls
  | _ :: calls => batched calls
  end.

(** The strokes handed to [POST /strokes]. *)
Fixpoint posted (calls : list PadCall) : list (option Z * list Point * string) :=
  match calls with
  | [] => []
  | PostStroke room_id strokes color :: calls => (room_id, strokes, color) :: posted calls
  | _ :: calls => posted calls
  end.

(** The [draw] handler (lines 186-206). *)
Definition on_draw (payload : DrawEvent) (w : Whiteboard) : Whiteboard :=
  if (draw_userId payload =? userId w)%string then w
  else
    match contextRef w with
    | None => w
    | Some context =>
        let currentStrokeStyle := strokeStyle context in
        let context := set_strokeStyle (draw_color payload) context in
        let context :=
          if (draw_type payload =? "start")%string then
            moveTo (draw_x payload) (draw_y payload) (beginPath context)
          else if (draw_type payload =? "move")%string then
            stroke (lineTo (draw_x payload) (draw_y payload) context)
          else context in
        set_context (Some (set_strokeStyle currentStrokeStyle context)) w
    end.

(** [setupCanvas] (lines 58-84), run at mount and on every resize, when the
    canvas and its container are there: sizing the canvas resets its bitmap
    and its context, the stroke defaults are applied again, and everything
    in the stroke store is repainted.  [cw] and [ch] are the new bitmap
    sizes; [color] is the [currentColor] the effect closed over. *)
Definition setupCanvas (cw ch : Z) (color : string) (w : Whiteboard) : Whiteboard :=
  match canvasRef w with
  | None => w
  | Some _ =>
      repaintAll (mkWhiteboard (Some (mkCanvas cw ch)) (Some (mkContext color []))
                               (userId w) (strokesStoreRef w) (currentColor w))
  end.

(** What the client sees of the answer to its [POST]. *)
Definition saved_of (r : StrokeRoutes.PostResponse) : Fetched unit :=
  match r with
  | StrokeRoutes.PostJson status _ =>
      if ((200 <=? status) && (status <=? 299))%Z then ResponseOk tt else ResponseNotOk
  | StrokeRoutes.PostError _ => ResponseNotOk
  end.

End Pad.

(* ================================================================== *)
(** * The rooms routes: paging, and the playback row of a room *)
(* ================================================================== *)

Module RoomsRoute.

Local Open Scope Z_scope.

(** A query parameter read as [parseInt(req.query.name || default, 10)]:
    absent (or empty), or a text that [parseInt] reads as the double [v]:
    an integer, rounded when it has too many digits, an infinity when the
    digits go beyond the doubles, [NaN] when the text does not start with
    a number. *)
Inductive QueryInt : Type :=
| QueryAbsent
| QueryReads (v : float).

Definition parseInt_or (q : QueryInt) (default : float) : float :=
  match q with
  | QueryAbsent => default
  | QueryReads v => v
  end.

(** [Math.max(a, b)] and [Math.min(a, b)]: [NaN] when an argument is, and
    [+0] above [-0]. *)
Definition Math_max (a b : float) : float :=
  if (is_nan a || is_nan b)%bool then nan
  else if (a <? b)%float then b
  else if (b <? a)%float then a
  else if is_zero a then (a + b)%float
  else a.

Definition Math_min (a b : float) : float :=
  if (is_nan a || is_nan b)%bool then nan
  else if (a <? b)%float then a
  else if (b <? a)%float then b
  else if is_zero a then (- (- a + - b))%float
  else a.

(** Lines 63-67 of [GET /api/rooms]: the bounds given to [.range(from, to)]. *)
Definition page_limit (limit : QueryInt) : float :=
  Math_min (Math_max (parseInt_or limit 50) 1) 200.
Definition page_offset (offset : QueryInt) : float :=
  Math_max (parseInt_or offset 0) 0.
Definition page_range (limit offset : QueryInt) : float * float :=
  let limit := page_limit limit in
  let offset := page_offset offset in
  let from := offset in
  let to := (offset + limit - 1)%float in
  (from, to).

(** What the handlers read of a row of [rooms]. *)
Record Room : Type := mkRoom {
  id : Z;
  room_video_url : option string;
  room_created_by : option string
}.

(** The row given to [room_playback.upsert]. *)
Record PlaybackInit : Type := mkPlaybackInit {
  pb_room_id : Z;
  pb_video_url : option string;
  pb_is_playing : bool;
  pb_playback_time : float;
  pb_client_ts : Z;
  pb_updated_by : option string
}.

(** A field of a request body: not there ([undefined]), or there with a
    string or [null]. *)
Inductive Field : Type :=
| Missing
| Given (v : option string).

Definition given (f : Field) : bool :=
  match f with Missing => false | Given _ => true end.

(** How the awaited queries settle. *)
Inductive Selected : Type :=
| SelectThrew
| SelectError
| SelectData (existingRoom : option Room).

Inductive Written : Type :=
| WriteThrew
| WriteError
| WriteData (room : Room).

Inductive Upserted : Type :=
| UpsertThrew
| UpsertError
| UpsertData.

(** The queries the handlers send and the warnings they log, in order. *)
Inductive DbCall : Type :=
| SelectRoom (room : Z)
| InsertRoom (title : string) (subject video_url : option string) (created_by : string)
| UpdateRoom (room : Z) (video_url title subject : Field)
| UpsertPlayback (row : PlaybackInit)
| ConsoleWarn.

(** The [try] around the upsert: a failure is logged and nothing else. *)
Definition upsert_playback (row : PlaybackInit) (upserted : Upserted) : list DbCall :=
  UpsertPlayback row
  :: match upserted with
     | UpsertData => []
     | UpsertThrew | UpsertError => [ConsoleWarn]
     end.

Inductive Reply : Type :=
| RoomReply (status : Z) (room : Room)
| ErrorReply (status : Z).

(** [v || null] on a string or [null]. *)
Definition or_null (v : option string) : option string :=
  match v with
  | Some s => if (s =? "")%string then None else Some s
  | None => None
  end.

(** [PATCH /api/rooms/:id] (lines 181-254).  [roomId] is
    [Number(req.params.id)], [None] when that is [NaN]; [requesterId] is
    [req.user?.id ?? null]. *)
Definition patch_room (roomId : option Z) (requesterId : option string)
           (video_url title subject : Field)
           (selected : Selected) (updated : Written) (upserted : Upserted)
  : Reply * list DbCall :=
  match roomId with
  | None => (ErrorReply 400, [])
  | Some roomId =>
      match selected with
      | SelectThrew | SelectError => (ErrorReply 500, [SelectRoom roomId])
      | SelectData None => (ErrorReply 404, [SelectRoom roomId])
      | SelectData (Some _) =>
          if negb (given video_url || given title || given subject) then
            (ErrorReply 400, [SelectRoom roomId])
          else
            let update := UpdateRoom roomId video_url title subject in
            match updated with
            | WriteThrew | WriteError => (ErrorReply 500, [SelectRoom roomId; update])
            | WriteData updatedRoom =>
                (RoomReply 200 updatedRoom,
                 [SelectRoom roomId; update]
                 ++ match video_url with
                    | Given v =>
                        upsert_playback (mkPlaybackInit roomId v false 0 0 requesterId)
                                        upserted
                    | Missing => []
                    end)
            end
      end
  end.

Section Create.

(** [String.prototype.trim]. *)
Variable trim : string -> string.

(** [POST /api/rooms] (lines 101-167).  [title] is [None] when the field
    is not a string; [subject] and [video_url] are strings or [null];
    [created_by] is [req.user?.id]. *)
Definition post_room (title subject video_url created_by : option string)
           (inserted : Written) (upserted : Upserted) : Reply * list DbCall :=
  match or_null title with
  | None => (ErrorReply 400, [])
  | Some title =>
      match or_null created_by with
      | None => (ErrorReply 401, [])
      | Some created_by =>
          let insert := InsertRoom (trim title) (option_map trim (or_null subject))
                                   video_url created_by in
          match inserted with
          | WriteThrew | WriteError => (ErrorReply 500, [insert])
          | WriteData createdRoom =>
              (RoomReply 201 createdRoom,
               insert
               :: upsert_playback (mkPlaybackInit (id createdRoom)
                                     (or_null (room_video_url createdRoom))
                                     false 0 0
                                     (or_null (room_created_by createdRoom)))
                                  upserted)
          end
      end
  end.

End Create.

(** The upserts among the queries of a handler. *)
Fixpoint upserts (calls : list DbCall) : list PlaybackInit :=
  match calls with
  | [] => []
  | UpsertPlayback row :: calls => row :: upserts calls
  | _ :: calls => upserts calls
  end.

(** The row of [room_playback] as a participant receives it, stamped by
    the database. *)
Definition snapshot_of (row : PlaybackInit) (updated_at : PlaybackSync.Stamp)
  : PlaybackSync.PlaybackRow :=
  PlaybackSync.mkRow (pb_video_url row) (pb_is_playing row)
                     (pb_playback_time row) updated_at (pb_updated_by row).

End RoomsRoute.

(* ================================================================== *)
(** * VideoPlayer: the controls it registers *)
(* ================================================================== *)

Module VideoControls.

Local Open Scope float_scope.

(** What the controls read of [playerRef.current], the YouTube player:
    whether it has a [seekTo] member, and what its [getCurrentTime] member
    returns, if it has one. *)
Record YouTube : Type := mkYouTube {
  yt_seekTo : bool;
  yt_getCurrentTime : option float
}.

(** What the controls read of [videoRef.current], the video element. *)
Record Video : Type := mkVideo {
  currentTime : float
}.

Record Media : Type := mkMedia {
  playerRef : option YouTube;
  videoRef : option Video
}.

(** The calls the controls make on a player. *)
Inductive MediaCall : Type :=
| YouTubeSeekTo (t : float)        (* playerRef.current.seekTo(t, true) *)
| VideoSetCurrentTime (t : float). (* videoRef.current.currentTime = t *)

(** [controls.seekTo] (lines 109-117). *)
Definition controls_seekTo (t : float) (m : Media) : list MediaCall :=
  match playerRef m with
  | Some yt =>
      if yt_seekTo yt then [YouTubeSeekTo t]
      else match videoRef m with Some _ => [VideoSetCurrentTime t] | None => [] end
  | None => match videoRef m with Some _ => [VideoSetCurrentTime t] | None => [] end
  end.

(** [controls.getCurrentTime] (lines 118-124). *)
Definition controls_getCurrentTime (m : Media) : float :=
  match playerRef m with
  | Some (mkYouTube _ (Some t)) => t
  | _ =>
      match videoRef m with
      | Some v =>                    (* videoRef.current.currentTime || 0 *)
          PlaybackSync.number_or_zero (currentTime v)
      | None => 0
      end
  end.

(** The object passed to [registerControls] (lines 108-141), as
    [RoomVideoPlayer] sees it: the three members are functions. *)
Definition registered (m : Media) : PlaybackSync.Controls :=
  PlaybackSync.mkControls (Some (controls_getCurrentTime m)) true true.

(** The player calls that the [seekTo] calls of a handler end in. *)
Definition forwarded (l : list PlaybackSync.Effect) (m : Media) : list MediaCall :=
  flat_map (fun t => controls_seekTo t m) (PlaybackSync.seeks l).

End VideoControls.

(* ================================================================== *)
(** * Facts about the comparison of doubles *)
(* ================================================================== *)

Module DoubleFacts.

Local Open Scope float_scope.

Lemma SFcompare_swap x y c :
  SFcompare x y = Some c -> SFcompare y x = Some (CompOpp c).
Proof.
  destruct x as [sx|sx| |sx mx ex], y as [sy|sy| |sy my ey]; simpl;
    intros H; try discriminate; inversion H; subst; clear H;
    try (destruct sx; reflexivity); try (destruct sy; reflexivity);
    try (destruct sx, sy; reflexivity).
  destruct sx, sy; try reflexivity.
  - rewrite (Z.compare_antisym ex ey). destruct (ex ?= ey)%Z; simpl; try reflexivity.
    rewrite (Pos.compare_cont_antisym _ _ Eq). simpl.
    rewrite CompOpp_involutive. reflexivity.
  - rewrite (Z.compare_antisym ex ey). destruct (ex ?= ey)%Z; simpl; try reflexivity.
    rewrite (Pos.compare_cont_antisym _ _ Eq). reflexivity.
Qed.

(** [x <= y] excludes [y < x]; both are false when one of the two is
    [NaN]. *)
Lemma leb_not_ltb x y : (x <=? y) = true -> (y <? x) = false.
Proof.
  rewrite leb_spec, ltb_spec. unfold SFleb, SFltb.
  destruct (SFcompare (Prim2SF x) (Prim2SF y)) as [c|] eqn:E; [|discriminate].
  rewrite (SFcompare_swap _ _ _ E). destruct c; simpl; congruence.
Qed.

Lemma SFcompare_none x y :
  SFcompare x y = None <-> x = S754_nan \/ y = S754_nan.
Proof.
  destruct x as [sx|sx| |sx mx ex], y as [sy|sy| |sy my ey]; simpl;
    split; intros H; try discriminate; try reflexivity;
    try (left; reflexivity); try (right; reflexivity);
    destruct H as [H|H]; discriminate.
Qed.

Lemma SFcompare_refl x : x <> S754_nan -> SFcompare x x = Some Eq.
Proof.
  destruct x as [sx|sx| |sx mx ex]; simpl; intros H; try congruence.
  - destruct sx; reflexivity.
  - destruct sx; rewrite Z.compare_refl, Pos.compare_cont_refl; reflexivity.
Qed.

(** [is_nan] tells whether a double is [NaN]. *)
Lemma is_nan_false x : is_nan x = false <-> Prim2SF x <> S754_nan.
Proof.
  unfold is_nan. rewrite negb_false_iff, eqb_spec. unfold SFeqb. split.
  - intros H Hnan. rewrite Hnan in H. discriminate.
  - intros H. rewrite (SFcompare_refl _ H). reflexivity.
Qed.

(** Two doubles that are not [NaN] compare: when the one is not below the
    other, the other is at most the one. *)
Lemma not_ltb_leb x y :
  is_nan x = false -> is_nan y = false -> (x <? y) = false -> (y <=? x) = true.
Proof.
  intros Hx Hy. apply is_nan_false in Hx. apply is_nan_false in Hy.
  rewrite ltb_spec, leb_spec. unfold SFltb, SFleb.
  destruct (SFcompare (Prim2SF x) (Prim2SF y)) as [c|] eqn:E.
  - rewrite (SFcompare_swap _ _ _ E). destruct c; simpl; congruence.
  - apply SFcompare_none in E. tauto.
Qed.

Lemma ltb_leb x y : (x <? y) = true -> (x <=? y) = true.
Proof.
  rewrite ltb_spec, leb_spec. unfold SFltb, SFleb.
  destruct (SFcompare (Prim2SF x) (Prim2SF y)) as [[| |]|]; congruence.
Qed.

Lemma ltb_not_nan x y : (x <? y) = true -> is_nan x = false /\ is_nan y = false.
Proof.
  rewrite ltb_spec. unfold SFltb. intros H.
  destruct (SFcompare (Prim2SF x) (Prim2SF y)) as [c|] eqn:E; [|discriminate].
  split; apply is_nan_false; intros Hnan;
    assert (Hnone : SFcompare (Prim2SF x) (Prim2SF y) = None)
      by (apply SFcompare_none; tauto);
    congruence.
Qed.

End DoubleFacts.

(* ================================================================== *)
(** * Facts about PlaybackSync *)
(* ================================================================== *)

Module PlaybackFacts.

Import PlaybackSync DoubleFacts.
Local Open Scope float_scope.
Local Open Scope playback_scope.

Ltac unfold_monad :=
  unfold effects_of, trace_of, refs_after, when, bind, read, write, emit, ret in *.

(** A drift of at most the threshold does not exceed it. *)
Lemma at_most_threshold diff :
  (diff <=? SEEK_THRESHOLD) = true -> exceeds_threshold diff = false.
Proof. apply leb_not_ltb. Qed.

(** The three ways through [onRemoteUpdate] for a row that is there. *)
Lemma onRemoteUpdate_first r row now :
  didInitRef r = false ->
  onRemoteUpdate (Some row) now r = hydrate row (playerControlRef r) r.
Proof.
  intros H. unfold onRemoteUpdate, bind, read. rewrite H. simpl.
  destruct (hydrate row (playerControlRef r) r) as [[[] r2] t2]. reflexivity.
Qed.

Lemma onRemoteUpdate_later r row now :
  didInitRef r = true ->
  onRemoteUpdate (Some row) now r = synced row now r.
Proof.
  intros H. unfold onRemoteUpdate, synced, bind, read. rewrite H. simpl.
  destruct (suppressEchoRef r); [reflexivity|].
  destruct (reconcile row now (playerControlRef r) r) as [[[] r2] t2]. reflexivity.
Qed.

Lemma synced_suppressed r row now :
  suppressEchoRef r = true -> synced row now r = (tt, r, []).
Proof.
  intros H. unfold synced, bind, read, ret. rewrite H. reflexivity.
Qed.

Lemma synced_open r row now :
  suppressEchoRef r = false ->
  synced row now r = reconcile row now (playerControlRef r) r.
Proof.
  intros H. unfold synced, bind, read, ret. rewrite H. simpl.
  destruct (reconcile row now (playerControlRef r) r) as [[[] r2] t2]. reflexivity.
Qed.

(** The calls of [reconcile], by cases on what the player offers. *)
Lemma reconcile_effects row now player r :
  map snd (snd (reconcile row now player r)) =
  match member_getCurrentTime player with
  | Some localTime =>
      if exceeds_threshold (abs (localTime - expectedTime row now))
         && member_seekTo player
      then [CallSeekTo (expectedTime row now); SetTimeout 200]
      else []
  | None => []
  end ++
  (if member_setPlaying player then [CallSetPlaying (is_playing row)] else []).
Proof.
  unfold reconcile. unfold_monad.
  destruct (member_getCurrentTime player) as [localTime|];
    [destruct (exceeds_threshold _ && member_seekTo player)|];
    destruct (member_setPlaying player); reflexivity.
Qed.

Lemma reconcile_isPlaying row now player r :
  isPlayingRef (snd (fst (reconcile row now player r))) = is_playing row.
Proof.
  unfold reconcile. unfold_monad.
  destruct (member_getCurrentTime player) as [localTime|];
    [destruct (exceeds_threshold _ && member_seekTo player)|];
    destruct (member_setPlaying player); reflexivity.
Qed.

(** The refs [reconcile] leaves. *)
Lemma reconcile_refs row now player r :
  snd (fst (reconcile row now player r)) =
  set_isPlaying (is_playing row)
    match member_getCurrentTime player with
    | Some localTime =>
        if exceeds_threshold (abs (localTime - expectedTime row now))
           && member_seekTo player
        then set_suppressEcho true r else r
    | None => set_pendingSeek (Some (expectedTime row now)) r
    end.
Proof.
  unfold reconcile. unfold_monad.
  destruct (member_getCurrentTime player) as [localTime|];
    [destruct (exceeds_threshold _ && member_seekTo player)|];
    destruct (member_setPlaying player); reflexivity.
Qed.

Lemma seeks_app l1 l2 : seeks (l1 ++ l2) = seeks l1 ++ seeks l2.
Proof.
  induction l1 as [|e l1 IH]; [reflexivity|].
  destruct e; simpl; rewrite IH; reflexivity.
Qed.

Lemma playing_calls_app l1 l2 :
  playing_calls (l1 ++ l2) = playing_calls l1 ++ playing_calls l2.
Proof.
  induction l1 as [|e l1 IH]; [reflexivity|].
  destruct e; simpl; rewrite IH; reflexivity.
Qed.

Lemma sent_app l1 l2 : sent (l1 ++ l2) = sent l1 ++ sent l2.
Proof.
  induction l1 as [|e l1 IH]; [reflexivity|].
  destruct e; simpl; rewrite IH; reflexivity.
Qed.

(** The seeks of a row handled in the Synced state, outside the guard
    window, by a player that can be read and sought. *)
Lemma synced_seeks r row now c localTime :
  didInitRef r = true ->
  suppressEchoRef r = false ->
  playerControlRef r = Some c ->
  getCurrentTime c = Some localTime ->
  seekTo c = true ->
  seeks (effects_of (onRemoteUpdate (Some row) now) r) =
  if exceeds_threshold (abs (localTime - expectedTime row now))
  then [expectedTime row now] else [].
Proof.
  intros Hinit Hopen Hplayer Htime Hseek.
  unfold effects_of, trace_of.
  rewrite (onRemoteUpdate_later _ _ _ Hinit), (synced_open _ _ _ Hopen).
  rewrite reconcile_effects, Hplayer. simpl. rewrite Htime, Hseek, andb_true_r.
  destruct (exceeds_threshold _), (setPlaying c); reflexivity.
Qed.

(** The refs a row leaves in the Synced state, outside the guard window,
    on a player that can be read and sought. *)
Lemma synced_refs r row now c localTime :
  didInitRef r = true ->
  suppressEchoRef r = false ->
  playerControlRef r = Some c ->
  getCurrentTime c = Some localTime ->
  seekTo c = true ->
  refs_after (onRemoteUpdate (Some row) now) r =
  set_isPlaying (is_playing row)
    (if exceeds_threshold (abs (localTime - expectedTime row now))
     then set_suppressEcho true r else r).
Proof.
  intros Hinit Hopen Hplayer Htime Hseek. unfold refs_after.
  rewrite (onRemoteUpdate_later _ _ _ Hinit), (synced_open _ _ _ Hopen).
  unfold reconcile. unfold_monad. rewrite Hplayer. simpl. rewrite Htime, Hseek, andb_true_r.
  destruct (exceeds_threshold _), (setPlaying c); reflexivity.
Qed.

(** C1, as stated, fails inside the guard window: the refs are those left
    by a corrective seek less than 200 ms ago ([suppressEchoRef.current]
    still true), the player reads 0 s and offers all three members, and the
    row is paused at 100 s.  The drift is 100 s, above the threshold, and
    the handler returns at line 72 without a seek. *)
Lemma C1_counterexample :
  let r := mkRefs 0 None (Some (mkControls (Some 0) true true)) false true true in
  let row := mkRow None false 100 (StampAt 0) None in
  didInitRef r = true /\
  member_getCurrentTime (playerControlRef r) = Some 0 /\
  expectedTime row 1000 = 100 /\
  abs (0 - expectedTime row 1000) = 100 /\
  (SEEK_THRESHOLD <? abs (0 - expectedTime row 1000)) = true /\
  seeks (effects_of (onRemoteUpdate (Some row) 1000) r) = [] /\
  seeks (effects_of (onRemoteUpdate (Some row) 1000) r) <> [expectedTime row 1000].
Proof.
  cbv zeta. repeat split; try reflexivity. discriminate.
Qed.

(** C1 (amended): in the Synced state, with the local time readable and
    [seekTo] offered by the player, and the drift [|local - expected|]
    computed in doubles as the handler computes it.  Outside the guard
    window a drift of at most [SEEK_THRESHOLD] issues no seek, and so does
    any drift that is not above it ([NaN] included); a drift strictly
    above it issues exactly one seek, to the expected position, raises the
    guard and arms the 200 ms timer that lowers it.  While the guard is
    raised the row is dropped: nothing is called and no ref changes. *)
Theorem C1_drift_tolerance r row now c localTime :
  didInitRef r = true ->
  playerControlRef r = Some c ->
  getCurrentTime c = Some localTime ->
  seekTo c = true ->
  let expected := expectedTime row now in
  let diff := abs (localTime - expected) in
  let m := onRemoteUpdate (Some row) now in
  (suppressEchoRef r = false ->
   ((diff <=? SEEK_THRESHOLD) = true -> seeks (effects_of m r) = []) /\
   ((SEEK_THRESHOLD <? diff) = false ->
      seeks (effects_of m r) = [] /\ suppressEchoRef (refs_after m r) = false) /\
   ((SEEK_THRESHOLD <? diff) = true ->
      seeks (effects_of m r) = [expected] /\
      In (SetTimeout 200) (effects_of m r) /\
      suppressEchoRef (refs_after m r) = true)) /\
  (suppressEchoRef r = true -> m r = (tt, r, [])).
Proof.
  intros Hinit Hplayer Htime Hseek expected diff m.
  subst expected diff m. split.
  - intros Hopen.
    rewrite (synced_seeks r row now c localTime Hinit Hopen Hplayer Htime Hseek).
    rewrite (synced_refs r row now c localTime Hinit Hopen Hplayer Htime Hseek).
    split; [|split]; intros Hdrift.
    + apply at_most_threshold in Hdrift. rewrite Hdrift. reflexivity.
    + change (exceeds_threshold (abs (localTime - expectedTime row now)) = false)
        in Hdrift.
      rewrite Hdrift. split; [reflexivity|exact Hopen].
    + change (exceeds_threshold (abs (localTime - expectedTime row now)) = true)
        in Hdrift.
      rewrite Hdrift. split; [reflexivity|]. split; [|reflexivity].
      unfold effects_of, trace_of.
      rewrite (onRemoteUpdate_later _ _ _ Hinit), (synced_open _ _ _ Hopen).
      rewrite reconcile_effects, Hplayer.
      cbn [member_getCurrentTime member_seekTo member_setPlaying].
      rewrite Htime, Hseek, Hdrift. simpl. right. left. reflexivity.
  - intros Hguard. rewrite (onRemoteUpdate_later _ _ _ Hinit).
    apply synced_suppressed. exact Hguard.
Qed.

(** C1 at work: a player 1.8 s behind is sought once; a player 0.5 s behind
    is left alone. *)
Lemma C1_witness :
  let c1 := mkControls (Some 101.2) true true in
  let c2 := mkControls (Some 102.5) true true in
  let row := mkRow None true 100 (StampAt 0) None in
  seeks (effects_of (onRemoteUpdate (Some row) 3000)
           (mkRefs 0 None (Some c1) true true false)) = [expectedTime row 3000] /\
  seeks (effects_of (onRemoteUpdate (Some row) 3000)
           (mkRefs 0 None (Some c2) true true false)) = [].
Proof.
  cbv zeta. split.
  - apply (proj1 (C1_drift_tolerance
                    (mkRefs 0 None (Some (mkControls (Some 101.2) true true))
                            true true false)
                    (mkRow None true 100 (StampAt 0) None) 3000
                    (mkControls (Some 101.2) true true) 101.2
                    eq_refl eq_refl eq_refl eq_refl)); reflexivity.
  - apply (proj1 (C1_drift_tolerance
                    (mkRefs 0 None (Some (mkControls (Some 102.5) true true))
                            true true false)
                    (mkRow None true 100 (StampAt 0) None) 3000
                    (mkControls (Some 102.5) true true) 102.5
                    eq_refl eq_refl eq_refl eq_refl)); reflexivity.
Defined.

(** The drift is a double: a participant at 7.05 s meets a row at 3.8 s
    that has been playing for 4.5 s.  In exact arithmetic the drift would
    be 1.25; the handler finds the double just above 1.25 and seeks.  And
    a drift that exact arithmetic puts just above 1.25 rounds to 1.25 and
    seeks nothing. *)
Example drift_is_rounded :
  let r t := mkRefs 0 None (Some (mkControls (Some t) true true)) false true false in
  (SEEK_THRESHOLD <? abs (7.05 - expectedTime (mkRow None true 3.8 (StampAt 0) None) 4500))
  = true /\
  seeks (effects_of (onRemoteUpdate (Some (mkRow None true 3.8 (StampAt 0) None)) 4500)
                    (r 7.05))
  = [expectedTime (mkRow None true 3.8 (StampAt 0) None) 4500] /\
  abs (1.5 - expectedTime (mkRow None false 0.24999999999999997 (StampAt 0) None) 0)
  = 1.25 /\
  seeks (effects_of
           (onRemoteUpdate (Some (mkRow None false 0.24999999999999997 (StampAt 0) None)) 0)
           (r 1.5)) = [].
Proof. cbv zeta. repeat split; reflexivity. Qed.

(** The expected position that [reconcile] works with. *)
Lemma expectedTime_cases row now :
  expectedTime row now =
  if is_playing row
  then number_or_zero (playback_time row)
       + match updated_at row with
         | StampAt updatedAtMs => double_of_Z (now - updatedAtMs)
         | StampInvalid => nan
         | StampMissing => 0
         end / 1000
  else number_or_zero (playback_time row).
Proof.
  unfold expectedTime, elapsedMs. destruct (is_playing row); [|reflexivity].
  destruct (updated_at row); try reflexivity.
  rewrite Z.sub_diag. reflexivity.
Qed.

(** C2, as stated, fails for the very row of its example when the row
    arrives inside the guard window: the expected position is 103 and the
    player, at 101.2 s, is 1.8 s away, but the handler returns at line 72
    and no seek to 103 is issued.  It fails as well when the player does
    not offer [seekTo]. *)
Lemma C2_counterexample :
  let row := mkRow None true 100 (StampAt 5000) None in
  let c := mkControls (Some 101.2) true true in
  let guarded := mkRefs 0 None (Some c) false true true in
  let unsought := mkRefs 0 None (Some (mkControls (Some 101.2) false true))
                         false true false in
  didInitRef guarded = true /\
  expectedTime row 8000 = 103 /\
  (SEEK_THRESHOLD <? abs (101.2 - expectedTime row 8000)) = true /\
  seeks (effects_of (onRemoteUpdate (Some row) 8000) guarded) = [] /\
  didInitRef unsought = true /\ suppressEchoRef unsought = false /\
  seeks (effects_of (onRemoteUpdate (Some row) 8000) unsought) = [].
Proof.
  cbv zeta. repeat split; reflexivity.
Qed.

(** C2 (amended): in the Synced state and outside the guard window, the
    expected position the handler works with (the value it stashes when
    the local time cannot be read, the value it compares the local time
    with, and the target of its corrective seek when [seekTo] is offered)
    is, in double arithmetic, [position + elapsed / 1000] for a playing row
    and [position] for a paused one, where [position] is
    [Number(playback_time)] with [NaN] and zero read as 0, and [elapsed]
    is the milliseconds from [updated_at] to now (0 without a stamp, [NaN]
    for a stamp that is not a date).  For the row [{position: 100,
    isPlaying: true}] read 3 s after its stamp, the expected position is
    103; a player at 101.2 s is more than 1.25 s away and, when it offers
    [seekTo], draws exactly one seek, to 103. *)
Theorem C2_expected_position r row now :
  didInitRef r = true ->
  suppressEchoRef r = false ->
  let position := number_or_zero (playback_time row) in
  let elapsed := match updated_at row with
                 | StampAt updatedAtMs => double_of_Z (now - updatedAtMs)
                 | StampInvalid => nan
                 | StampMissing => 0
                 end in
  let expected := if is_playing row then position + elapsed / 1000 else position in
  let m := onRemoteUpdate (Some row) now in
  ((is_nan (playback_time row) || is_zero (playback_time row))%bool = false ->
   position = playback_time row) /\
  ((is_nan (playback_time row) || is_zero (playback_time row))%bool = true ->
   position = 0) /\
  (member_getCurrentTime (playerControlRef r) = None ->
   pendingSeekRef (refs_after m r) = Some expected /\ seeks (effects_of m r) = []) /\
  (forall localTime,
      member_getCurrentTime (playerControlRef r) = Some localTime ->
      seeks (effects_of m r) =
      if ((SEEK_THRESHOLD <? abs (localTime - expected))
          && member_seekTo (playerControlRef r))%bool
      then [expected] else []) /\
  (playback_time row = 100 -> is_playing row = true ->
   forall updatedAtMs,
     updated_at row = StampAt updatedAtMs -> now = (updatedAtMs + 3000)%Z ->
     SEEK_THRESHOLD = 1.25 /\
     expected = 103 /\
     (SEEK_THRESHOLD <? abs (101.2 - expected)) = true /\
     (member_getCurrentTime (playerControlRef r) = Some 101.2 ->
      member_seekTo (playerControlRef r) = true ->
      seeks (effects_of m r) = [103])).
Proof.
  intros Hinit Hopen position elapsed expected m.
  assert (Hexpected : expectedTime row now = expected)
    by (rewrite expectedTime_cases; reflexivity).
  assert (Hseeks : forall localTime,
             member_getCurrentTime (playerControlRef r) = Some localTime ->
             seeks (effects_of m r) =
             if ((SEEK_THRESHOLD <? abs (localTime - expected))
                 && member_seekTo (playerControlRef r))%bool
             then [expected] else []).
  { intros localTime Htime. subst m. unfold effects_of, trace_of.
    rewrite (onRemoteUpdate_later _ _ _ Hinit), (synced_open _ _ _ Hopen).
    rewrite reconcile_effects, Htime, Hexpected, seeks_app.
    change (exceeds_threshold (abs (localTime - expected)))
      with (SEEK_THRESHOLD <? abs (localTime - expected)).
    destruct ((SEEK_THRESHOLD <? abs (localTime - expected))
              && member_seekTo (playerControlRef r))%bool,
             (member_setPlaying (playerControlRef r)); reflexivity. }
  split; [|split; [|split; [|split; [exact Hseeks|]]]].
  - intros Hnumber. subst position. unfold number_or_zero. rewrite Hnumber. reflexivity.
  - intros Hfalsy. subst position. unfold number_or_zero. rewrite Hfalsy. reflexivity.
  - intros Hunread. subst m. unfold effects_of, trace_of, refs_after.
    rewrite (onRemoteUpdate_later _ _ _ Hinit), (synced_open _ _ _ Hopen).
    rewrite reconcile_effects, reconcile_refs, Hunread, Hexpected.
    split; [reflexivity|].
    destruct (member_setPlaying (playerControlRef r)); reflexivity.
  - intros Hposition Hplaying updatedAtMs Hstamp Hnow.
    assert (H103 : expected = 103).
    { subst expected elapsed position. rewrite Hposition, Hplaying, Hstamp, Hnow.
      replace (updatedAtMs + 3000 - updatedAtMs)%Z with 3000%Z by lia. reflexivity. }
    split; [reflexivity|]. split; [exact H103|].
    split; [rewrite H103; reflexivity|].
    intros Htime Hseek. rewrite (Hseeks _ Htime), Hseek, H103. reflexivity.
Qed.

(** C2 at work on the row of the example, stamped at clock 5000. *)
Lemma C2_witness :
  let row := mkRow None true 100 (StampAt 5000) None in
  let r := mkRefs 0 None (Some (mkControls (Some 101.2) true true))
                  false true false in
  seeks (effects_of (onRemoteUpdate (Some row) 8000) r) = [103] /\
  pendingSeekRef (refs_after (onRemoteUpdate (Some row) 8000)
                    (mkRefs 0 None None false true false)) = Some 103.
Proof.
  cbv zeta. split.
  - apply (proj2 (proj2 (proj2 (proj2
             (C2_expected_position
                (mkRefs 0 None (Some (mkControls (Some 101.2) true true))
                        false true false)
                (mkRow None true 100 (StampAt 5000) None) 8000
                eq_refl eq_refl))))
             eq_refl eq_refl 5000%Z eq_refl eq_refl); reflexivity.
  - apply (proj1 (proj2 (proj2
             (C2_expected_position
                (mkRefs 0 None None false true false)
                (mkRow None true 100 (StampAt 5000) None) 8000
                eq_refl eq_refl)))
             eq_refl).
Defined.

(** ** Hydration *)

Lemma hydrate_effects row player r :
  map snd (snd (hydrate row player r)) =
  if member_seekTo player then
    [CallSeekTo (number_or_zero (playback_time row))]
    ++ (if member_setPlaying player then [CallSetPlaying false] else [])
    ++ [SetTimeout 250]
  else [].
Proof.
  unfold hydrate. unfold_monad.
  destruct (member_seekTo player), (member_setPlaying player); reflexivity.
Qed.

Lemma hydrate_refs row player r :
  snd (fst (hydrate row player r)) =
  if member_seekTo player then
    set_isPlaying false (set_suppressEcho true (set_didInit true r))
  else set_pendingSeek (Some (number_or_zero (playback_time row))) (set_didInit true r).
Proof.
  unfold hydrate. unfold_monad.
  destruct (member_seekTo player), (member_setPlaying player); reflexivity.
Qed.

(** The refs each reporter leaves. *)
Lemma handleLocalTimeUpdate_refs p time now o r :
  refs_after (handleLocalTimeUpdate p time now o) r =
  if (now - lastSentRef r <? UPDATE_THROTTLE_MS)%Z then r else set_lastSent now r.
Proof.
  unfold handleLocalTimeUpdate, sendLocalUpdate. unfold_monad.
  destruct (onTimeUpdate p); simpl;
    destruct (now - lastSentRef r <? UPDATE_THROTTLE_MS)%Z; destruct o; reflexivity.
Qed.

Lemma handleLocalTimeUpdate_sent p time now o r :
  sent (effects_of (handleLocalTimeUpdate p time now o) r) =
  if (now - lastSentRef r <? UPDATE_THROTTLE_MS)%Z then []
  else [mkUpdate (effectiveUrl p) (isPlayingRef r) time now (userId p)].
Proof.
  unfold handleLocalTimeUpdate, sendLocalUpdate. unfold_monad.
  destruct (onTimeUpdate p); simpl;
    destruct (now - lastSentRef r <? UPDATE_THROTTLE_MS)%Z; destruct o; reflexivity.
Qed.

Lemma handleLocalPlayPause_refs p isPlaying currentTime now o r :
  refs_after (handleLocalPlayPause p isPlaying currentTime now o) r =
  set_isPlaying isPlaying r.
Proof.
  unfold handleLocalPlayPause, sendLocalUpdate. unfold_monad.
  destruct o; reflexivity.
Qed.

Lemma handleLocalSeek_refs p target now o r :
  refs_after (handleLocalSeek p target now o) r = r.
Proof.
  unfold handleLocalSeek, sendLocalUpdate. unfold_monad.
  destruct (onTimeUpdate p), o; reflexivity.
Qed.

Lemma setPlayerControls_refs controls r :
  refs_after (setPlayerControls controls) r =
  match pendingSeekRef r with
  | Some _ =>
      if member_seekTo controls
      then set_pendingSeek None (set_playerControl controls r)
      else set_playerControl controls r
  | None => set_playerControl controls r
  end.
Proof.
  unfold setPlayerControls. unfold_monad. simpl.
  destruct (pendingSeekRef r); [destruct (member_seekTo controls)|]; reflexivity.
Qed.

Lemma onSeekToTime_refs p t r :
  refs_after (onSeekToTime p t) r =
  match t with
  | Some t =>
      if member_seekTo (playerControlRef r) then r else set_pendingSeek (Some t) r
  | None => r
  end.
Proof.
  unfold onSeekToTime. unfold_monad. destruct t as [t|]; [|reflexivity].
  simpl. destruct (member_seekTo (playerControlRef r)); [|reflexivity].
  destruct (onSeekComplete p); reflexivity.
Qed.

Lemma onRemoteUpdate_refs_later row now r :
  didInitRef r = true ->
  refs_after (onRemoteUpdate (Some row) now) r =
  if suppressEchoRef r then r
  else snd (fst (reconcile row now (playerControlRef r) r)).
Proof.
  intros H. unfold refs_after. rewrite (onRemoteUpdate_later _ _ _ H).
  destruct (suppressEchoRef r) eqn:E.
  - rewrite (synced_suppressed _ _ _ E). reflexivity.
  - rewrite (synced_open _ _ _ E). reflexivity.
Qed.








(** C4, as stated, fails inside the guard window: with
    [suppressEchoRef.current] true the handler returns at line 72, before
    the play state is touched.  Here the row says playing, the local state
    is paused, and nothing is called and nothing is recorded. *)
Lemma C4_counterexample :
  let r := mkRefs 0 None (Some (mkControls (Some 0) true true)) false true true in
  let row := mkRow None true 0 (StampAt 1000) None in
  didInitRef r = true /\
  is_playing row = true /\
  effects_of (onRemoteUpdate (Some row) 1000) r = [] /\
  isPlayingRef (refs_after (onRemoteUpdate (Some row) 1000) r) = false.
Proof.
  cbv zeta. repeat split; reflexivity.
Qed.

(** C4 (amended): in the Synced state and outside the guard window, for
    every row and every drift, the handler ends by recording
    [row.is_playing] as the local play state and, when the player offers
    [setPlaying], by calling it with that value as the last call of the
    handler, so after any seek; no other [setPlaying] call is made. *)
Theorem C4_play_state_last r row now :
  didInitRef r = true ->
  suppressEchoRef r = false ->
  let m := onRemoteUpdate (Some row) now in
  isPlayingRef (refs_after m r) = is_playing row /\
  (member_setPlaying (playerControlRef r) = true ->
     exists before,
       effects_of m r = before ++ [CallSetPlaying (is_playing row)] /\
       playing_calls before = [] /\
       seeks before = seeks (effects_of m r)) /\
  (member_setPlaying (playerControlRef r) = false ->
     playing_calls (effects_of m r) = []).
Proof.
  intros Hinit Hopen m. subst m. unfold effects_of, trace_of, refs_after.
  rewrite (onRemoteUpdate_later _ _ _ Hinit), (synced_open _ _ _ Hopen).
  rewrite reconcile_effects, reconcile_isPlaying.
  split; [reflexivity|]. split; intros Hset; rewrite Hset.
  - eexists. split; [reflexivity|].
    rewrite seeks_app. simpl. rewrite app_nil_r.
    split; [|reflexivity].
    destruct (member_getCurrentTime (playerControlRef r));
      [destruct (exceeds_threshold _ && _)|]; reflexivity.
  - rewrite app_nil_r.
    destruct (member_getCurrentTime (playerControlRef r));
      [destruct (exceeds_threshold _ && _)|]; reflexivity.
Qed.

(** C4 at work: a paused player 50 s away from a playing row is sought
    first and started last. *)
Lemma C4_witness :
  let r := mkRefs 0 None (Some (mkControls (Some 0) true true)) false true false in
  let row := mkRow None true 50 (StampAt 1000) None in
  isPlayingRef (refs_after (onRemoteUpdate (Some row) 1000) r) = true /\
  exists before,
    effects_of (onRemoteUpdate (Some row) 1000) r = before ++ [CallSetPlaying true] /\
    playing_calls before = [].
Proof.
  cbv zeta.
  destruct (C4_play_state_last
              (mkRefs 0 None (Some (mkControls (Some 0) true true)) false true false)
              (mkRow None true 50 (StampAt 1000) None) 1000 eq_refl eq_refl)
    as (Hstate & Hcall & _).
  split; [exact Hstate|].
  destruct (Hcall eq_refl) as (before & Hbefore & Hnone & _).
  exists before. split; [exact Hbefore|exact Hnone].
Defined.

(** ** The throttle *)

Lemma onRemoteUpdate_keeps_lastSent row now r :
  lastSentRef (refs_after (onRemoteUpdate row now) r) = lastSentRef r.
Proof.
  destruct row as [row|]; [|reflexivity].
  destruct (didInitRef r) eqn:Hinit.
  - rewrite (onRemoteUpdate_refs_later _ _ _ Hinit), reconcile_refs.
    destruct (suppressEchoRef r); [reflexivity|].
    destruct (member_getCurrentTime (playerControlRef r));
      [destruct (exceeds_threshold _ && _)|]; reflexivity.
  - unfold refs_after. rewrite (onRemoteUpdate_first _ _ _ Hinit), hydrate_refs.
    destruct (member_seekTo (playerControlRef r)); reflexivity.
Qed.

Section Throttle.

Variable p : Props.

(** Only the periodic report writes [lastSentRef]. *)
Lemma perform_keeps_lastSent a r :
  match a with LocalTimeUpdate _ _ _ => False | _ => True end ->
  lastSentRef (refs_after (perform p a) r) = lastSentRef r.
Proof.
  destruct a; cbn [perform]; intros Hother; try contradiction.
  - apply onRemoteUpdate_keeps_lastSent.
  - reflexivity.
  - rewrite handleLocalPlayPause_refs. reflexivity.
  - rewrite handleLocalSeek_refs. reflexivity.
  - rewrite setPlayerControls_refs.
    destruct (pendingSeekRef r); [destruct (member_seekTo controls)|]; reflexivity.
  - rewrite onSeekToTime_refs.
    destruct seekToTime; [destruct (member_seekTo (playerControlRef r))|]; reflexivity.
  - unfold refs_after, write, player_reads. simpl.
    destruct (playerControlRef r) as [c|]; [destruct (getCurrentTime c)|]; reflexivity.
Qed.

(** A report that comes too early changes nothing; one that comes late
    enough sends at its clock reading and restarts the interval there. *)
Lemma report_step time now o acts r :
  periodic_writes p (LocalTimeUpdate time now o :: acts) r =
  if (now - lastSentRef r <? UPDATE_THROTTLE_MS)%Z
  then periodic_writes p acts r
  else now :: periodic_writes p acts (set_lastSent now r).
Proof.
  cbn [periodic_writes perform].
  rewrite handleLocalTimeUpdate_sent, handleLocalTimeUpdate_refs.
  destruct (now - lastSentRef r <? UPDATE_THROTTLE_MS)%Z; reflexivity.
Qed.

(** The writes of the periodic report are spaced, and each comes at least
    one interval after the stamp the session starts with. *)
Lemma periodic_writes_spaced acts :
  forall r,
    ForallOrdPairs spaced (periodic_writes p acts r) /\
    Forall (spaced (lastSentRef r)) (periodic_writes p acts r).
Proof.
  induction acts as [|a acts IH]; intros r.
  - split; constructor.
  - assert (Hskip : lastSentRef (refs_after (perform p a) r) = lastSentRef r ->
                    ForallOrdPairs spaced
                      ([] ++ periodic_writes p acts (refs_after (perform p a) r)) /\
                    Forall (spaced (lastSentRef r))
                      ([] ++ periodic_writes p acts (refs_after (perform p a) r))).
    { intros Hsame. destruct (IH (refs_after (perform p a) r)) as [H1 H2].
      rewrite Hsame in H2. split; assumption. }
    destruct a;
      try (cbn [periodic_writes]; apply Hskip; apply perform_keeps_lastSent; exact I).
    rewrite report_step.
    destruct (now - lastSentRef r <? UPDATE_THROTTLE_MS)%Z eqn:E; [apply IH|].
    apply Z.ltb_ge in E.
    destruct (IH (set_lastSent now r)) as [H1 H2]. simpl in H2.
    split.
    + constructor; assumption.
    + constructor; [exact E|].
      eapply Forall_impl; [|exact H2].
      unfold spaced, UPDATE_THROTTLE_MS in *. intros t Ht. lia.
Qed.

End Throttle.

(** Reports every half second from clock 2000 on, with a play/pause report
    in between: the periodic report writes at 2000, 3500 and 5000. *)
Example throttle_half_seconds :
  let p := mkProps None None false false in
  periodic_writes p
    [LocalTimeUpdate 0 2000 SendResolved;
     LocalTimeUpdate 0.5 2500 SendResolved;
     LocalPlayPause true 1 2600 SendResolved;
     LocalTimeUpdate 1 3000 SendResolved;
     LocalTimeUpdate 1.5 3500 SendThrew;
     LocalTimeUpdate 2 4000 SendResolved;
     LocalTimeUpdate 2.5 4500 SendResolved;
     LocalTimeUpdate 3 5000 SendResolved] initialRefs
  = [2000; 3500; 5000]%Z.
Proof. reflexivity. Qed.

(** C8: in every session, whatever handlers run in between and however
    often the periodic report is called, any two updates that the report
    hands to [sendLocalUpdate] are at least [UPDATE_THROTTLE_MS] = 1500 ms
    of clock time apart. *)
Theorem C8_throttle p acts r :
  UPDATE_THROTTLE_MS = 1500%Z /\
  ForallOrdPairs
    (fun earlier later => (UPDATE_THROTTLE_MS <= later - earlier)%Z)
    (periodic_writes p acts r).
Proof.
  split; [reflexivity|]. exact (proj1 (periodic_writes_spaced p acts r)).
Qed.

(** C9: [handleLocalPlayPause] hands exactly one update to
    [sendLocalUpdate], whatever the refs (so whatever [lastSentRef] holds)
    and whatever the clock, with [is_playing] the reported state; the local
    play state is the reported one when that call is made, and stays so
    whether the send resolves or throws; [lastSentRef] is not touched. *)
Theorem C9_play_pause_unthrottled p isPlaying currentTime now o r :
  let m := handleLocalPlayPause p isPlaying currentTime now o in
  sent (effects_of m r)
  = [mkUpdate (effectiveUrl p) isPlaying currentTime now (userId p)] /\
  (forall u, In u (sent (effects_of m r)) -> lu_is_playing u = isPlaying) /\
  (forall at_call e, In (at_call, e) (trace_of m r) ->
                     isPlayingRef at_call = isPlaying) /\
  isPlayingRef (refs_after m r) = isPlaying /\
  lastSentRef (refs_after m r) = lastSentRef r.
Proof.
  intros m. subst m. rewrite handleLocalPlayPause_refs.
  unfold handleLocalPlayPause, sendLocalUpdate. unfold_monad.
  destruct o; simpl; repeat split; try reflexivity.
  - intros u [<-|[]]. reflexivity.
  - intros at_call e [Heq|[]]. inversion Heq. reflexivity.
  - intros u [<-|[]]. reflexivity.
  - intros at_call e [Heq|[Heq|[]]]; inversion Heq; reflexivity.
Qed.

End PlaybackFacts.

(* ================================================================== *)
(** * Facts about drawing *)
(* ================================================================== *)

Module DrawingFacts.

Import Drawing StrokeSync.
Local Open Scope Q_scope.

Lemma loop_style points :
  forall isNewPath context,
    strokeStyle (drawStroke_loop points isNewPath context) = strokeStyle context.
Proof.
  induction points as [|point rest IH]; intros isNewPath context; simpl.
  - reflexivity.
  - destruct ((type point =? "start")%string || isNewPath).
    + rewrite IH. reflexivity.
    + destruct (type point =? "move")%string; rewrite IH; reflexivity.
Qed.

(** The loop only appends calls, and which ones does not depend on the
    calls made before. *)
Lemma loop_calls_app points :
  forall isNewPath context,
    calls (drawStroke_loop points isNewPath context) =
    calls context
    ++ calls (drawStroke_loop points isNewPath (mkContext (strokeStyle context) [])).
Proof.
  induction points as [|point rest IH]; intros isNewPath context; simpl.
  - rewrite app_nil_r. reflexivity.
  - destruct ((type point =? "start")%string || isNewPath).
    + rewrite IH. symmetry. rewrite IH. simpl. rewrite <- !app_assoc. reflexivity.
    + destruct (type point =? "move")%string.
      * rewrite IH. symmetry. rewrite IH. simpl. rewrite <- !app_assoc. reflexivity.
      * apply IH.
Qed.

Lemma loop_first point rest c :
  calls (drawStroke_loop (point :: rest) true (mkContext c [])) =
  BeginPath :: MoveTo (x point) (y point)
  :: calls (drawStroke_loop rest false (mkContext c [])).
Proof.
  simpl. rewrite orb_true_r, loop_calls_app. reflexivity.
Qed.

Lemma calls_of_stroke_cons point rest c :
  calls_of_stroke (point :: rest) c =
  BeginPath :: MoveTo (x point) (y point)
  :: calls (drawStroke_loop rest false (mkContext c [])).
Proof.
  unfold calls_of_stroke, drawStroke.
  cbn [List.length Nat.eqb set_strokeStyle strokeStyle calls].
  apply loop_first.
Qed.

Lemma drawStroke_calls points c context :
  drawStroke points c (Some context) =
  Some (mkContext (strokeStyle context) (calls context ++ calls_of_stroke points c)).
Proof.
  destruct points as [|point rest].
  - destruct context as [style done]. unfold calls_of_stroke. simpl.
    rewrite app_nil_r. reflexivity.
  - rewrite calls_of_stroke_cons, <- loop_first.
    unfold drawStroke. cbn [List.length Nat.eqb]. unfold set_strokeStyle.
    rewrite (loop_calls_app (point :: rest) true (mkContext c (calls context))).
    reflexivity.
Qed.

Lemma paint_app s l1 l2 : paint s (l1 ++ l2) = paint (paint s l1) l2.
Proof. apply fold_left_app. Qed.

(** What the loop paints once a path is open: segments between points of
    the region [on], as long as the points drawn, the pen and the open path
    are in the region. *)
Lemma paint_loop (on : Pt -> Prop) c points :
  (forall q, In q points -> on (coords q)) ->
  forall s,
    (forall a, pen s = Some a -> on a) ->
    (forall a b, In (a, b) (path s) -> on a /\ on b) ->
    exists fresh,
      ink (paint s (calls (drawStroke_loop points false (mkContext c []))))
      = ink s ++ fresh /\
      forall a b style, In (a, b, style) fresh -> on a /\ on b /\ style = c.
Proof.
  induction points as [|q rest IH]; intros Hpoints s Hpen Hpath.
  - exists []. simpl. rewrite app_nil_r. split; [reflexivity|]. intros a b style [].
  - assert (Hq : on (coords q)) by (apply Hpoints; left; reflexivity).
    assert (Hrest : forall q', In q' rest -> on (coords q'))
      by (intros q' Hin; apply Hpoints; right; exact Hin).
    simpl drawStroke_loop. rewrite orb_false_r.
    destruct (type q =? "start")%string.
    + rewrite loop_calls_app, paint_app.
      cbn [calls strokeStyle moveTo beginPath call app paint fold_left paint_call].
      fold (paint (mkSurface (Some (x q, y q)) [] (ink s))
                  (calls (drawStroke_loop rest false (mkContext c [])))).
      destruct (IH Hrest (mkSurface (Some (x q, y q)) [] (ink s)))
        as (fresh & Hink & Hfresh).
      * simpl. intros a Ha. inversion Ha; subst. exact Hq.
      * simpl. intros a b [].
      * exists fresh. split; [exact Hink|exact Hfresh].
    + destruct (type q =? "move")%string.
      * rewrite loop_calls_app, paint_app.
        cbn [calls strokeStyle lineTo stroke call app paint fold_left paint_call].
        set (s1 := match pen s with
                   | Some p => mkSurface (Some (x q, y q)) (path s ++ [(p, (x q, y q))]) (ink s)
                   | None => mkSurface (Some (x q, y q)) (path s) (ink s)
                   end).
        fold (paint (mkSurface (pen s1) (path s1)
                               (ink s1 ++ map (fun g => (g, c)) (path s1)))
                    (calls (drawStroke_loop rest false (mkContext c [])))).
        assert (Hs1 : ink s1 = ink s /\ pen s1 = Some (coords q) /\
                      forall a b, In (a, b) (path s1) -> on a /\ on b).
        { subst s1. destruct (pen s) as [p|] eqn:Ep; simpl.
          - repeat split; try reflexivity;
              apply in_app_or in H; destruct H as [H|[H|[]]];
              try (apply Hpath in H; tauto);
              inversion H; subst; auto.
          - repeat split; try reflexivity; apply Hpath in H; tauto. }
        destruct Hs1 as (Hink1 & Hpen1 & Hpath1).
        destruct (IH Hrest (mkSurface (pen s1) (path s1)
                                      (ink s1 ++ map (fun g => (g, c)) (path s1))))
          as (fresh & Hink & Hfresh).
        -- simpl. rewrite Hpen1. intros a Ha. inversion Ha; subst. exact Hq.
        -- simpl. exact Hpath1.
        -- exists (map (fun g => (g, c)) (path s1) ++ fresh).
           split.
           ++ rewrite Hink. simpl. rewrite Hink1, app_assoc. reflexivity.
           ++ intros a b style Hin. apply in_app_or in Hin. destruct Hin as [Hin|Hin].
              ** apply in_map_iff in Hin. destruct Hin as ([a' b'] & Heq & Hin).
                 inversion Heq; subst. destruct (Hpath1 _ _ Hin). auto.
              ** apply (Hfresh _ _ _ Hin).
      * apply (IH Hrest s Hpen Hpath).
Qed.

(** After the first point the loop keeps no state: its calls are those of
    its body, point after point. *)
Lemma loop_point_calls c points :
  calls (drawStroke_loop points false (mkContext c [])) = flat_map (point_calls c) points.
Proof.
  induction points as [|q rest IH]; [reflexivity|].
  cbn [flat_map]. rewrite <- IH. unfold point_calls.
  simpl drawStroke_loop. rewrite orb_false_r.
  destruct (type q =? "start")%string.
  - rewrite loop_calls_app. reflexivity.
  - destruct (type q =? "move")%string.
    + rewrite loop_calls_app. reflexivity.
    + reflexivity.
Qed.

(** The calls of the loop of [drawStroke] on ['move'] points. *)
Lemma loop_moves c ms :
  all_moves ms ->
  calls (drawStroke_loop ms false (mkContext c []))
  = flat_map (fun q => [LineTo (x q) (y q); Stroke c]) ms.
Proof.
  unfold all_moves. induction ms as [|q ms IH]; intros Hall; [reflexivity|].
  inversion Hall as [|q' ms' Hq Hms]; subst.
  simpl drawStroke_loop. rewrite Hq. simpl.
  rewrite loop_calls_app. simpl. rewrite (IH Hms). reflexivity.
Qed.

(** ** What a well-formed stroke paints *)

Lemma last_cons {A} (a d : A) l : last (a :: l) d = last l a.
Proof.
  revert a d. induction l as [|b l IH]; intros a d; [reflexivity|].
  change (last (a :: b :: l) d) with (last (b :: l) d).
  rewrite (IH b d), (IH b a). reflexivity.
Qed.

(** Painting ['move'] points from a pen position: the path grows by the
    line from the pen through the points, and each [stroke()] paints the
    whole path again. *)
Lemma paint_moves c ms :
  forall a open_path painted,
  exists fresh,
    paint (mkSurface (Some a) open_path painted)
          (flat_map (fun q => [LineTo (x q) (y q); Stroke c]) ms)
    = mkSurface (Some (last (map coords ms) a))
                (open_path ++ polyline (a :: map coords ms))
                (painted ++ fresh) /\
    forall g style,
      In (g, style) fresh <->
      ms <> [] /\ style = c /\ In g (open_path ++ polyline (a :: map coords ms)).
Proof.
  induction ms as [|q ms IH]; intros a open_path painted.
  - exists []. simpl. rewrite !app_nil_r. split; [reflexivity|].
    intros g style. split; [intros []|intros (H & _); congruence].
  - destruct (IH (coords q) (open_path ++ [(a, coords q)])
                 (painted ++ map (fun g => (g, c)) (open_path ++ [(a, coords q)])))
      as (fresh & Hpaint & Hfresh).
    exists (map (fun g => (g, c)) (open_path ++ [(a, coords q)]) ++ fresh).
    split.
    + assert (Hstep :
                paint (mkSurface (Some a) open_path painted)
                      (flat_map (fun q => [LineTo (x q) (y q); Stroke c]) (q :: ms))
                = paint (mkSurface (Some (coords q)) (open_path ++ [(a, coords q)])
                           (painted
                            ++ map (fun g => (g, c)) (open_path ++ [(a, coords q)])))
                        (flat_map (fun q => [LineTo (x q) (y q); Stroke c]) ms))
        by reflexivity.
      rewrite Hstep, Hpaint.
      cbn [map]. rewrite last_cons. cbn [polyline].
      rewrite <- !app_assoc. reflexivity.
    + intros g style. rewrite in_app_iff, Hfresh, in_map_iff.
      cbn [map polyline]. rewrite <- !app_assoc. cbn [app].
      split.
      * intros [(g0 & Heq & Hin)|(Hne & Hstyle & Hin)].
        -- inversion Heq; subst. split; [discriminate|]. split; [reflexivity|].
           apply in_app_or in Hin. apply in_or_app.
           destruct Hin as [Hin|[Hin|[]]]; [left; exact Hin|right; left; exact Hin].
        -- split; [discriminate|]. split; [exact Hstyle|exact Hin].
      * intros (_ & Hstyle & Hin). destruct ms as [|q' ms].
        -- left. exists g. subst style. split; [reflexivity|exact Hin].
        -- right. split; [discriminate|]. split; [exact Hstyle|exact Hin].
Qed.

Lemma stroke_paint point ms c s :
  all_moves ms ->
  exists fresh,
    paint s (calls_of_stroke (point :: ms) c)
    = mkSurface (Some (last (map coords (point :: ms)) (coords point)))
                (polyline (map coords (point :: ms))) (ink s ++ fresh) /\
    forall g style,
      In (g, style) fresh <-> style = c /\ In g (polyline (map coords (point :: ms))).
Proof.
  intros Hmoves.
  rewrite calls_of_stroke_cons, (loop_moves c ms Hmoves).
  change (BeginPath :: MoveTo (x point) (y point)
          :: flat_map (fun q => [LineTo (x q) (y q); Stroke c]) ms)
    with ([BeginPath; MoveTo (x point) (y point)]
          ++ flat_map (fun q => [LineTo (x q) (y q); Stroke c]) ms).
  rewrite paint_app.
  change (paint s [BeginPath; MoveTo (x point) (y point)])
    with (mkSurface (Some (coords point)) [] (ink s)).
  destruct (paint_moves c ms (coords point) [] (ink s)) as (fresh & Hpaint & Hfresh).
  exists fresh. split.
  - rewrite Hpaint. cbn [map]. rewrite last_cons. reflexivity.
  - intros g style. rewrite Hfresh. cbn [app map]. split.
    + intros (_ & Hstyle & Hin). split; assumption.
    + intros (Hstyle & Hin). split; [|split; assumption].
      destruct ms; [contradiction|discriminate].
Qed.

Example drawStroke_partial_batch :
  drawStroke [mkPoint "move" 30 30; mkPoint "move" 40 40] "#fff"
             (Some (mkContext "#3ecf8e" [MoveTo 10 10; LineTo 20 20; Stroke "#3ecf8e"]))
  = Some (mkContext "#3ecf8e"
            [MoveTo 10 10; LineTo 20 20; Stroke "#3ecf8e";
             BeginPath; MoveTo 30 30; LineTo 40 40; Stroke "#fff"]).
Proof. reflexivity. Qed.

(** C10: on a list with a first point, whatever the [type] of that point,
    [drawStroke] calls [beginPath()] and [moveTo] on the first point and
    then, for each further point, what its [type] asks for: [beginPath]
    and [moveTo] for a ['start'], [lineTo] and [stroke] in the colour of
    the stroke for a ['move'], nothing otherwise; [strokeStyle] is put
    back.  After the first two calls the path is empty and the pen is on
    the first point, whatever was drawn or left open before, so every
    segment painted joins two points of the list.  A batch whose further
    points are all ['move'] points, with or without its ['start'], paints
    exactly the line through its points, each segment from one point to
    the next, and when it has at least two points each such segment is
    painted.  On an empty list, and without a context, nothing happens. *)
Theorem C10_fresh_path :
  (forall point rest c context,
      drawStroke (point :: rest) c (Some context) =
      Some (mkContext (strokeStyle context)
              (calls context
               ++ BeginPath :: MoveTo (x point) (y point)
                  :: flat_map (point_calls c) rest)) /\
      forall s,
        pen (paint s [BeginPath; MoveTo (x point) (y point)]) = Some (coords point) /\
        path (paint s [BeginPath; MoveTo (x point) (y point)]) = [] /\
        exists fresh,
          ink (paint s (BeginPath :: MoveTo (x point) (y point)
                        :: flat_map (point_calls c) rest))
          = ink s ++ fresh /\
          (forall a b style,
              In (a, b, style) fresh ->
              In a (map coords (point :: rest)) /\
              In b (map coords (point :: rest)) /\ style = c) /\
          (all_moves rest ->
           forall g style,
             In (g, style) fresh <->
             style = c /\ In g (polyline (map coords (point :: rest))))) /\
  (forall c context, drawStroke [] c context = context) /\
  (forall points c, drawStroke points c None = None).
Proof.
  split; [|split].
  - intros point rest c context.
    split.
    + rewrite drawStroke_calls, calls_of_stroke_cons, loop_point_calls. reflexivity.
    + intros s. split; [reflexivity|]. split; [reflexivity|].
      rewrite <- loop_point_calls.
      destruct (paint_loop (fun a => In a (map coords (point :: rest))) c rest
                  (fun q Hq => or_intror (in_map coords rest q Hq))
                  (paint s [BeginPath; MoveTo (x point) (y point)]))
        as (fresh & Hink & Hfresh).
      * simpl. intros a Ha. inversion Ha; subst. left. reflexivity.
      * simpl. intros a b [].
      * exists fresh. split; [|split; [exact Hfresh|]].
        -- change (BeginPath :: MoveTo (x point) (y point)
                   :: calls (drawStroke_loop rest false (mkContext c [])))
             with ([BeginPath; MoveTo (x point) (y point)]
                   ++ calls (drawStroke_loop rest false (mkContext c []))).
           rewrite paint_app. exact Hink.
        -- intros Hmoves.
           destruct (stroke_paint point rest c s Hmoves) as (fresh' & Hpaint & Hfresh').
           rewrite calls_of_stroke_cons in Hpaint.
           change (BeginPath :: MoveTo (x point) (y point)
                   :: calls (drawStroke_loop rest false (mkContext c [])))
             with ([BeginPath; MoveTo (x point) (y point)]
                   ++ calls (drawStroke_loop rest false (mkContext c []))) in Hpaint.
           rewrite paint_app in Hpaint. rewrite Hpaint in Hink. simpl in Hink.
           apply app_inv_head in Hink. subst fresh'. exact Hfresh'.
  - intros c [context|]; reflexivity.
  - intros points c. reflexivity.
Qed.

(** A batch of two ['move'] points that comes after a stroke was drawn:
    its segment is painted, and nothing joins it to the stroke before. *)
Example partial_batch_paints_apart :
  ink (paint blank
         (calls_of_stroke [mkPoint "start" 10 10; mkPoint "move" 20 20] "#3ecf8e"
          ++ calls_of_stroke [mkPoint "move" 30 30; mkPoint "move" 40 40] "#fff"))
  = [((10, 10), (20, 20), "#3ecf8e"%string); ((30, 30), (40, 40), "#fff"%string)].
Proof. reflexivity. Qed.

End DrawingFacts.

(* ================================================================== *)
(** * Facts about the stroke store and the whiteboard *)
(* ================================================================== *)

Module StrokeFacts.

Import Drawing StrokeStore StrokeSync StrokeRoutes DrawingFacts.
Local Open Scope Z_scope.

(** ** The sort of the route *)

Lemma insert_perm tie d l : Permutation (insert_by_created_at tie d l) (d :: l).
Proof.
  induction l as [|e l IH]; simpl.
  - apply Permutation_refl.
  - destruct (goes_before tie d e).
    + apply Permutation_refl.
    + eapply perm_trans; [apply perm_skip, IH|apply perm_swap].
Qed.

Lemma goes_before_le tie d e : goes_before tie d e = true -> created_at d <= created_at e.
Proof.
  unfold goes_before. intros H. apply orb_true_iff in H. destruct H as [H|H].
  - apply Z.ltb_lt in H. lia.
  - apply andb_true_iff in H. destruct H as [H _]. apply Z.eqb_eq in H. lia.
Qed.

Lemma not_goes_before_le tie d e :
  goes_before tie d e = false -> created_at e <= created_at d.
Proof.
  unfold goes_before. intros H. apply orb_false_iff in H. destruct H as [H _].
  apply Z.ltb_ge in H. exact H.
Qed.

Lemma insert_hd tie d e l :
  created_at e <= created_at d ->
  HdRel (fun a b => created_at a <= created_at b) e l ->
  HdRel (fun a b => created_at a <= created_at b) e (insert_by_created_at tie d l).
Proof.
  intros Hed Hhd. destruct l as [|f l]; simpl.
  - constructor. exact Hed.
  - destruct (goes_before tie d f); constructor.
    + exact Hed.
    + inversion Hhd; subst. assumption.
Qed.

Lemma insert_ascending tie d l :
  ascending l -> ascending (insert_by_created_at tie d l).
Proof.
  unfold ascending. induction l as [|e l IH]; intros Hl; simpl.
  - constructor; constructor.
  - destruct (goes_before tie d e) eqn:E.
    + constructor; [exact Hl|]. constructor. apply (goes_before_le tie). exact E.
    + apply not_goes_before_le in E. inversion Hl; subst.
      constructor; [apply IH; assumption|].
      apply insert_hd; assumption.
Qed.

Lemma sort_perm tie l : Permutation (sort_by_created_at tie l) l.
Proof.
  induction l as [|d l IH]; simpl.
  - constructor.
  - eapply perm_trans; [apply insert_perm|]. apply perm_skip, IH.
Qed.

Lemma sort_ascending tie l : ascending (sort_by_created_at tie l).
Proof.
  induction l as [|d l IH]; simpl.
  - constructor.
  - apply insert_ascending, IH.
Qed.

Example sort_three :
  forall tie,
    map created_at
        (sort_by_created_at tie
           [mkDoc 7 [] "#fff" 30 None; mkDoc 7 [] "#000" 10 None;
            mkDoc 7 [] "#0f0" 20 None])
    = [10; 20; 30].
Proof. reflexivity. Qed.

(** Two strokes saved in the same millisecond come back in either order,
    as the tie falls. *)
Example sort_tie :
  let a := mkDoc 7 [] "#fff" 10 None in
  let b := mkDoc 7 [] "#000" 10 None in
  sort_by_created_at (fun _ _ => true) [a; b] = [a; b] /\
  sort_by_created_at (fun _ _ => false) [a; b] = [b; a].
Proof. split; reflexivity. Qed.

(** ** The handlers *)

Lemma draw_store pts c w : strokesStoreRef (draw_on_context pts c w) = strokesStoreRef w.
Proof. reflexivity. Qed.

Lemma replay_one_store w s :
  strokesStoreRef (replay_one w s) = strokesStoreRef w ++ [entry_of s].
Proof. reflexivity. Qed.

Lemma replay_one_calls w s :
  context_calls (replay_one w s) =
  match contextRef w with
  | Some _ => context_calls w ++ calls_of_stroke (strokes s) (color s)
  | None => []
  end.
Proof.
  unfold replay_one, context_calls, push_stroke, draw_on_context, set_context. simpl.
  destruct (contextRef w) as [context|]; [|reflexivity].
  rewrite drawStroke_calls. reflexivity.
Qed.

Lemma replay_one_context w s :
  contextRef (replay_one w s) = None <-> contextRef w = None.
Proof.
  unfold replay_one, push_stroke, draw_on_context, set_context. simpl.
  destruct (contextRef w) as [context|].
  - rewrite drawStroke_calls. split; discriminate.
  - split; reflexivity.
Qed.

(** The replay of a fetched history: every stroke is appended to the store
    and drawn, in the order of the list. *)
Lemma replay_all data :
  forall w,
    strokesStoreRef (fold_left replay_one data w)
    = strokesStoreRef w ++ map entry_of data /\
    context_calls (fold_left replay_one data w)
    = match contextRef w with
      | Some _ =>
          context_calls w
          ++ flat_map (fun s => calls_of_stroke (strokes s) (color s)) data
      | None => []
      end.
Proof.
  induction data as [|s data IH]; intros w; simpl.
  - rewrite !app_nil_r. unfold context_calls.
    destruct (contextRef w); split; reflexivity.
  - destruct (IH (replay_one w s)) as [Hstore Hcalls].
    rewrite Hstore, Hcalls, replay_one_store, replay_one_calls.
    split; [rewrite <- app_assoc; reflexivity|].
    destruct (contextRef (replay_one w s)) eqn:E1, (contextRef w) eqn:E2;
      try reflexivity.
    + rewrite <- app_assoc. reflexivity.
    + exfalso. apply (proj2 (replay_one_context w s)) in E2. congruence.
    + exfalso. apply (proj1 (replay_one_context w s)) in E1. congruence.
Qed.

Lemma on_strokes_fetched_store data w :
  strokesStoreRef (fst (on_strokes_fetched (ResponseOk data) w))
  = strokesStoreRef (fold_left replay_one data w) /\
  context_calls (fst (on_strokes_fetched (ResponseOk data) w))
  = context_calls (fold_left replay_one data w).
Proof.
  unfold on_strokes_fetched. cbn [fst].
  destruct (rev data) as [|last_one earlier]; [split; reflexivity|].
  unfold setCurrentColor, context_calls.
  destruct (_ =? _)%string; [split; reflexivity|]. cbn [strokesStoreRef contextRef].
  split; [reflexivity|].
  destruct (contextRef (fold_left replay_one data w)); reflexivity.
Qed.

Lemma run_app pre post w : run (pre ++ post) w = run post (run pre w).
Proof. apply fold_left_app. Qed.

(** C5: a [draw_batch] whose [userId] is that of the local participant
    leaves the whole state of the whiteboard as it is: no call is made on
    the context and no entry is pushed on the stroke store. *)
Theorem C5_self_echo w payload :
  batch_userId payload = userId w ->
  on_draw_batch payload w = w /\
  handle w (DrawBatchEvent payload) = w /\
  context_calls (on_draw_batch payload w) = context_calls w /\
  strokesStoreRef (on_draw_batch payload w) = strokesStoreRef w.
Proof.
  intros Hself.
  assert (Hsame : on_draw_batch payload w = w).
  { unfold on_draw_batch. rewrite Hself, String.eqb_refl. reflexivity. }
  simpl handle. rewrite Hsame. repeat split; reflexivity.
Qed.

(** C5 at work: the batch a participant sent comes back to it. *)
Lemma C5_witness :
  let w := mkWhiteboard (Some (mkCanvas 800 600)) (Some (mkContext "#3ecf8e" []))
                        "k3j9x" [] "#3ecf8e" in
  let payload := mkBatch "k3j9x" [mkPoint "start" 1 2; mkPoint "move" 3 4] "#3ecf8e" in
  on_draw_batch payload w = w.
Proof.
  cbv zeta.
  apply (C5_self_echo
           (mkWhiteboard (Some (mkCanvas 800 600)) (Some (mkContext "#3ecf8e" []))
                         "k3j9x" [] "#3ecf8e")
           (mkBatch "k3j9x" [mkPoint "start" 1 2; mkPoint "move" 3 4] "#3ecf8e")
           eq_refl).
Defined.

Example draw_batch_from_peer :
  let w := mkWhiteboard (Some (mkCanvas 800 600)) (Some (mkContext "#3ecf8e" []))
                        "k3j9x" [] "#3ecf8e" in
  let payload := mkBatch "q7w2e" [mkPoint "start" 1 2; mkPoint "move" 3 4] "#f43f5e" in
  strokesStoreRef (on_draw_batch payload w)
  = [mkEntry [mkPoint "start" 1 2; mkPoint "move" 3 4] "#f43f5e"] /\
  context_calls (on_draw_batch payload w)
  = [BeginPath; MoveTo 1 2; LineTo 3 4; Stroke "#f43f5e"].
Proof. split; reflexivity. Qed.

(** Neither way of clearing touches the stroke store. *)
Lemma on_clear_store w : strokesStoreRef (on_clear w) = strokesStoreRef w.
Proof.
  unfold on_clear. destruct (contextRef w); [destruct (canvasRef w)|]; reflexivity.
Qed.

Lemma clearCanvas_spec roomId del w w' log :
  clearCanvas roomId del w = Some (w', log) ->
  w' = on_clear w /\
  strokesStoreRef w' = strokesStoreRef w /\
  log = [FetchDeleteStrokes roomId]
        ++ match del with ResponseOk _ => [] | _ => [ConsoleError] end
        ++ [BroadcastClear (userId w)].
Proof.
  unfold clearCanvas, on_clear.
  destruct (contextRef w) as [context|]; [destruct (canvasRef w) as [canvas|]|];
    intros H; try discriminate.
  inversion H; subst. repeat split.
Qed.

(** C6: the code does not do what the claim asks of the local clear.
    [clearCanvas] wipes the canvas, sends the [DELETE] for its room and
    broadcasts [clear], and that is all: the stroke store is what it was,
    whether the [DELETE] succeeds or fails, as after a received [clear].
    On a whiteboard of room 7 that holds one stored stroke, with the
    [DELETE] answered 200: the collection has no stroke of room 7 left and
    a participant who joins now is sent an empty history, while the stroke
    store of the participant who cleared still holds the stroke, and the
    repaint of the next resize paints it again. *)
Theorem C6_clear_keeps_deleted_strokes :
  let pts := [mkPoint "start" 10 10; mkPoint "move" 20 20] in
  let e := mkEntry pts "#fff" in
  let w := mkWhiteboard (Some (mkCanvas 800 600)) (Some (mkContext "#3ecf8e" []))
                        "k3j9x" [e] "#3ecf8e" in
  let collection := [mkDoc 7 pts "#fff" 100 None; mkDoc 8 [] "#000" 50 None] in
  let request := FetchDeleteStrokes "7" in
  (forall roomId del w0 w' log,
      clearCanvas roomId del w0 = Some (w', log) ->
      strokesStoreRef w' = strokesStoreRef w0 /\ w' = on_clear w0) /\
  (forall w0, strokesStoreRef (on_clear w0) = strokesStoreRef w0) /\
  exists durable answer w',
    serve_delete reads_seven Resolves request collection = Some (durable, answer) /\
    clearCanvas "7" (deleted_of answer) w
    = Some (w', [request; BroadcastClear "k3j9x"]) /\
    deleted_of answer = ResponseOk tt /\
    find_by_room 7 durable = [] /\
    (forall tie, serve_get reads_seven tie (DbUp durable) (FetchGetStrokes "7")
                 = Some (Json 200 [])) /\
    ink (paint blank (context_calls w')) = [] /\
    strokesStoreRef w' = [e] /\
    ink (paint blank (context_calls (Pad.setupCanvas 800 600 "#3ecf8e" w')))
    = [((10%Q, 10%Q), (20%Q, 20%Q), "#fff"%string)].
Proof.
  cbv zeta. split; [|split].
  - intros roomId del w0 w' log H.
    destruct (clearCanvas_spec _ _ _ _ _ H) as (Hclear & Hstore & _).
    split; assumption.
  - apply on_clear_store.
  - eexists _, _, _. repeat split; reflexivity.
Qed.

(** C7, as stated, fails on "before any further live broadcast events are
    processed": the [draw_batch] handler is registered before [subscribe]
    and nothing holds it back while the [fetch] of the history is awaited.
    Here a peer's batch is delivered after the history of room 7 was asked
    for and before the fetch settles: it is drawn and stored first, and the
    history is replayed after it. *)
Lemma C7_counterexample :
  let w := mkWhiteboard (Some (mkCanvas 800 600)) (Some (mkContext "#3ecf8e" []))
                        "k3j9x" [] "#3ecf8e" in
  let live := mkBatch "q7w2e" [mkPoint "start" 1 2; mkPoint "move" 3 4] "#f43f5e" in
  let d := mkDoc 7 [mkPoint "start" 10 10; mkPoint "move" 20 20] "#fff" 100 None in
  let tie := fun _ _ => true in
  on_subscribe "SUBSCRIBED" TrackResolved "7" w
  = [ChannelTrack "k3j9x"; FetchGetStrokes "7"] /\
  serve_get reads_seven tie (DbUp [d]) (FetchGetStrokes "7") = Some (Json 200 [d]) /\
  fetched_of (Json 200 [d]) = ResponseOk [d] /\
  strokesStoreRef (run [DrawBatchEvent live] w)
  = [mkEntry (batch_points live) (batch_color live)] /\
  strokesStoreRef (run [DrawBatchEvent live; StrokesFetched (ResponseOk [d])] w)
  = [mkEntry (batch_points live) (batch_color live); entry_of d] /\
  context_calls (run [DrawBatchEvent live; StrokesFetched (ResponseOk [d])] w)
  = [BeginPath; MoveTo 1 2; LineTo 3 4; Stroke "#f43f5e";
     BeginPath; MoveTo 10 10; LineTo 20 20; Stroke "#fff"].
Proof.
  cbv zeta. repeat split; reflexivity.
Qed.

(** C7 (amended): on join, once the channel reports ['SUBSCRIBED'] and the
    participant is tracked, the component asks the backend once for the
    stroke history of its room; no other status asks for it.  When the
    route reads the room id of that request as the number [n] and the
    query succeeds, it answers with the strokes stored for room [n], all of
    them and only them, in ascending [created_at] (however the ties fall).
    When the fetch settles with that answer, every stroke of it is drawn
    and appended to the stroke store, in that order, in one handler run:
    after whatever live events were handled while the fetch was pending,
    and before any later one. *)
Theorem C7_history_replay parseInt tie roomId n collection w :
  parseInt roomId = Some n ->
  let asked := on_subscribe "SUBSCRIBED" TrackResolved roomId w in
  exists data,
    asked = [ChannelTrack (userId w); FetchGetStrokes roomId] /\
    (forall status tracked,
        In (FetchGetStrokes roomId) (on_subscribe status tracked roomId w) ->
        status = "SUBSCRIBED"%string /\ tracked = TrackResolved) /\
    (forall call answer,
        In call asked ->
        serve_get parseInt tie (DbUp collection) call = Some answer ->
        call = FetchGetStrokes roomId /\ answer = Json 200 data) /\
    serve_get parseInt tie (DbUp collection) (FetchGetStrokes roomId)
    = Some (Json 200 data) /\
    fetched_of (Json 200 data) = ResponseOk data /\
    ascending data /\
    Permutation data (find_by_room n collection) /\
    (forall pending later,
        let joined := run pending w in
        let replayed := run (pending ++ [StrokesFetched (ResponseOk data)]) w in
        strokesStoreRef replayed = strokesStoreRef joined ++ map entry_of data /\
        context_calls replayed
        = match contextRef joined with
          | Some _ =>
              context_calls joined
              ++ flat_map (fun s => calls_of_stroke (strokes s) (color s)) data
          | None => []
          end /\
        run (pending ++ StrokesFetched (ResponseOk data) :: later) w
        = run later replayed).
Proof.
  intros Hroom asked.
  exists (sort_by_created_at tie (find_by_room n collection)).
  assert (Hserved : serve_get parseInt tie (DbUp collection) (FetchGetStrokes roomId)
                    = Some (Json 200 (sort_by_created_at tie (find_by_room n collection)))).
  { unfold serve_get. rewrite Hroom. reflexivity. }
  split; [reflexivity|]. split; [|split; [|split; [exact Hserved|]]].
  - intros status tracked. unfold on_subscribe.
    destruct (status =? "SUBSCRIBED")%string eqn:E; [|intros []].
    apply String.eqb_eq in E.
    destruct tracked; simpl.
    + intros _. split; [exact E|reflexivity].
    + intros [H|[]]. discriminate H.
  - intros call answer [<-|[<-|[]]] Hanswer; [discriminate Hanswer|].
    rewrite Hserved in Hanswer. inversion Hanswer. split; reflexivity.
  - split; [reflexivity|].
    split; [apply sort_ascending|]. split; [apply sort_perm|].
    intros pending later joined replayed.
    assert (Hreplayed : replayed
                        = fst (on_strokes_fetched
                                 (ResponseOk (sort_by_created_at tie
                                                (find_by_room n collection)))
                                 joined)).
    { subst replayed joined. rewrite run_app. reflexivity. }
    split; [|split].
    + rewrite Hreplayed, (proj1 (on_strokes_fetched_store _ _)). apply replay_all.
    + rewrite Hreplayed, (proj2 (on_strokes_fetched_store _ _)). apply replay_all.
    + subst replayed. rewrite !run_app. reflexivity.
Qed.

(** C7 at work: a participant joins room 7, which holds two strokes, the
    newer one stored first. *)
Lemma C7_witness :
  let w := mkWhiteboard (Some (mkCanvas 800 600)) (Some (mkContext "#3ecf8e" []))
                        "k3j9x" [] "#3ecf8e" in
  let a := mkDoc 7 [mkPoint "start" 10 10; mkPoint "move" 20 20] "#fff" 100 None in
  let b := mkDoc 7 [mkPoint "start" 30 30; mkPoint "move" 40 40] "#f43f5e" 200 None in
  let c := mkDoc 8 [mkPoint "start" 0 0] "#000" 150 None in
  exists data,
    serve_get reads_seven (fun _ _ => true) (DbUp [b; c; a]) (FetchGetStrokes "7")
    = Some (Json 200 data) /\
    data = [a; b] /\
    context_calls (run [StrokesFetched (ResponseOk data)] w)
    = [BeginPath; MoveTo 10 10; LineTo 20 20; Stroke "#fff";
       BeginPath; MoveTo 30 30; LineTo 40 40; Stroke "#f43f5e"].
Proof.
  cbv zeta.
  destruct (C7_history_replay reads_seven (fun _ _ => true) "7" 7
              [mkDoc 7 [mkPoint "start" 30 30; mkPoint "move" 40 40] "#f43f5e" 200 None;
               mkDoc 8 [mkPoint "start" 0 0] "#000" 150 None;
               mkDoc 7 [mkPoint "start" 10 10; mkPoint "move" 20 20] "#fff" 100 None]
              (mkWhiteboard (Some (mkCanvas 800 600)) (Some (mkContext "#3ecf8e" []))
                            "k3j9x" [] "#3ecf8e")
              eq_refl)
    as (data & _ & _ & _ & Hserved & _ & _ & _ & Hreplay).
  exists data. split; [exact Hserved|].
  assert (Hdata : data
                  = [mkDoc 7 [mkPoint "start" 10 10; mkPoint "move" 20 20] "#fff" 100 None;
                     mkDoc 7 [mkPoint "start" 30 30; mkPoint "move" 40 40] "#f43f5e" 200
                           None]).
  { vm_compute in Hserved. inversion Hserved. reflexivity. }
  split; [exact Hdata|].
  etransitivity; [exact (proj1 (proj2 (Hreplay [] [])))|].
  rewrite Hdata. reflexivity.
Defined.

End StrokeFacts.

(* ================================================================== *)
(** * More facts about RoomVideoPlayer *)
(* ================================================================== *)

Module PlaybackMoreFacts.

Import PlaybackSync PlaybackMore PlaybackFacts.
Local Open Scope float_scope.
Local Open Scope playback_scope.

(** Running two handlers in a row. *)
Lemma bind_run (m k : M unit) r :
  refs_after (m ;; k) r = refs_after k (refs_after m r) /\
  effects_of (m ;; k) r = effects_of m r ++ effects_of k (refs_after m r).
Proof.
  unfold refs_after, effects_of, trace_of, bind.
  destruct (m r) as [[[] r1] t1]. simpl.
  destruct (k r1) as [[[] r2] t2]. simpl.
  split; [reflexivity|apply map_app].
Qed.

Lemma handleLocalSeek_sent p target now o r :
  sent (effects_of (handleLocalSeek p target now o) r)
  = [mkUpdate (effectiveUrl p) (isPlayingRef r) target now (userId p)].
Proof.
  unfold handleLocalSeek, sendLocalUpdate. unfold_monad.
  destruct (onTimeUpdate p), o; reflexivity.
Qed.

Lemma handleLocalPlayPause_sent p isPlaying currentTime now o r :
  sent (effects_of (handleLocalPlayPause p isPlaying currentTime now o) r)
  = [mkUpdate (effectiveUrl p) isPlaying currentTime now (userId p)].
Proof.
  unfold handleLocalPlayPause, sendLocalUpdate. unfold_monad.
  destruct o; reflexivity.
Qed.

(** X1: [handleLocalSeek] hands exactly one update to [sendLocalUpdate],
    whatever [lastSentRef] holds, with the target as [playback_time] and
    the play state on record as [is_playing], and leaves every ref as it
    was; after a local play/pause report the seek carries the state that
    report recorded. *)
Theorem X1_seek_keeps_play_state p target now o r :
  sent (effects_of (handleLocalSeek p target now o) r)
  = [mkUpdate (effectiveUrl p) (isPlayingRef r) target now (userId p)] /\
  refs_after (handleLocalSeek p target now o) r = r /\
  forall isPlaying t0 now0 o0,
    sent (effects_of (handleLocalPlayPause p isPlaying t0 now0 o0 ;;
                      handleLocalSeek p target now o) r)
    = [mkUpdate (effectiveUrl p) isPlaying t0 now0 (userId p);
       mkUpdate (effectiveUrl p) isPlaying target now (userId p)].
Proof.
  split; [apply handleLocalSeek_sent|]. split; [apply handleLocalSeek_refs|].
  intros isPlaying t0 now0 o0.
  rewrite (proj2 (bind_run _ _ _)), sent_app.
  rewrite handleLocalPlayPause_sent, handleLocalSeek_sent, handleLocalPlayPause_refs.
  reflexivity.
Qed.

Lemma setPlayerControls_effects controls r :
  effects_of (setPlayerControls controls) r =
  match pendingSeekRef r with
  | Some t => if member_seekTo controls then [CallSeekTo t] else []
  | None => []
  end.
Proof.
  unfold setPlayerControls. unfold_monad. simpl.
  destruct (pendingSeekRef r); [destruct (member_seekTo controls)|]; reflexivity.
Qed.

(** X2: when the first row arrives before the player offers [seekTo], the
    stored position is not lost: registering controls that offer [seekTo]
    right after issues exactly one seek, to the stored position, and empties
    the pending slot, so registering controls again seeks nothing. *)
Theorem X2_deferred_hydration r row now c :
  didInitRef r = false ->
  member_seekTo (playerControlRef r) = false ->
  seekTo c = true ->
  let m := onRemoteUpdate (Some row) now ;; setPlayerControls (Some c) in
  seeks (effects_of m r) = [number_or_zero (playback_time row)] /\
  pendingSeekRef (refs_after m r) = None /\
  playerControlRef (refs_after m r) = Some c /\
  forall c', effects_of (setPlayerControls c') (refs_after m r) = [].
Proof.
  intros Hfirst Hnone Hseek m. subst m.
  destruct (bind_run (onRemoteUpdate (Some row) now) (setPlayerControls (Some c)) r)
    as [Hrefs Heffects].
  assert (Hstash : refs_after (onRemoteUpdate (Some row) now) r
                   = set_pendingSeek (Some (number_or_zero (playback_time row)))
                                     (set_didInit true r)).
  { unfold refs_after. rewrite (onRemoteUpdate_first _ _ _ Hfirst), hydrate_refs, Hnone.
    reflexivity. }
  assert (Hquiet : effects_of (onRemoteUpdate (Some row) now) r = []).
  { unfold effects_of, trace_of.
    rewrite (onRemoteUpdate_first _ _ _ Hfirst), hydrate_effects, Hnone. reflexivity. }
  assert (Hafter : refs_after (onRemoteUpdate (Some row) now ;; setPlayerControls (Some c)) r
                   = set_pendingSeek None
                       (set_playerControl (Some c)
                          (set_pendingSeek (Some (number_or_zero (playback_time row)))
                                           (set_didInit true r)))).
  { rewrite Hrefs, Hstash, setPlayerControls_refs. simpl. rewrite Hseek. reflexivity. }
  split; [|split; [|split]].
  - rewrite Heffects, Hquiet, Hstash, setPlayerControls_effects. simpl.
    rewrite Hseek. reflexivity.
  - rewrite Hafter. reflexivity.
  - rewrite Hafter. reflexivity.
  - intros c'. rewrite Hafter, setPlayerControls_effects. reflexivity.
Qed.

Lemma X2_witness :
  let row := mkRow None true 42 (StampAt 0) None in
  let c := mkControls (Some 0) true true in
  seeks (effects_of (onRemoteUpdate (Some row) 1000 ;; setPlayerControls (Some c))
                    initialRefs) = [42].
Proof.
  cbv zeta.
  exact (proj1 (X2_deferred_hydration initialRefs
                  (mkRow None true 42 (StampAt 0) None) 1000
                  (mkControls (Some 0) true true) eq_refl eq_refl eq_refl)).
Defined.

(** X3: when the handler finds the drift above the threshold (its own
    comparison, on doubles) and seeks, it raises the guard and arms a
    200 ms timer; until the timer fires every row is dropped, with no call
    and no change of the refs, a change of play state included; once it has
    fired the next row is reconciled again. *)
Theorem X3_guard_window r row now c localTime :
  didInitRef r = true ->
  suppressEchoRef r = false ->
  playerControlRef r = Some c ->
  getCurrentTime c = Some localTime ->
  seekTo c = true ->
  (SEEK_THRESHOLD <? abs (localTime - expectedTime row now)) = true ->
  let r1 := refs_after (onRemoteUpdate (Some row) now) r in
  In (SetTimeout 200) (effects_of (onRemoteUpdate (Some row) now) r) /\
  suppressEchoRef r1 = true /\
  (forall row2 now2, onRemoteUpdate row2 now2 r1 = (tt, r1, [])) /\
  (forall row2 now2,
      isPlayingRef (refs_after (onSuppressTimeout ;; onRemoteUpdate (Some row2) now2) r1)
      = is_playing row2).
Proof.
  intros Hinit Hopen Hplayer Htime Hseek Hdrift r1.
  change (exceeds_threshold (abs (localTime - expectedTime row now)) = true) in Hdrift.
  assert (Hr1 : r1 = set_isPlaying (is_playing row) (set_suppressEcho true r)).
  { subst r1. rewrite (onRemoteUpdate_refs_later _ _ _ Hinit), Hopen, reconcile_refs.
    rewrite Hplayer. cbn [member_getCurrentTime member_seekTo].
    rewrite Htime, Hseek, Hdrift. reflexivity. }
  split; [|split; [|split]].
  - unfold effects_of, trace_of.
    rewrite (onRemoteUpdate_later _ _ _ Hinit), (synced_open _ _ _ Hopen).
    rewrite reconcile_effects, Hplayer.
    cbn [member_getCurrentTime member_seekTo member_setPlaying].
    rewrite Htime, Hseek, Hdrift. simpl.
    right. left. reflexivity.
  - rewrite Hr1. reflexivity.
  - intros [row2|] now2; [|reflexivity].
    rewrite onRemoteUpdate_later by (rewrite Hr1; exact Hinit).
    apply synced_suppressed. rewrite Hr1. reflexivity.
  - intros row2 now2. rewrite (proj1 (bind_run _ _ _)).
    unfold refs_after at 1.
    rewrite onRemoteUpdate_later by (rewrite Hr1; exact Hinit).
    rewrite synced_open by reflexivity.
    apply reconcile_isPlaying.
Qed.

Lemma X3_witness :
  let c := mkControls (Some 0) true true in
  let r := mkRefs 0 None (Some c) false true false in
  let row := mkRow None false 100 (StampAt 0) None in
  let r1 := refs_after (onRemoteUpdate (Some row) 1000) r in
  suppressEchoRef r1 = true /\
  onRemoteUpdate (Some (mkRow None true 100 (StampAt 1100) None)) 1100 r1
  = (tt, r1, []).
Proof.
  cbv zeta.
  destruct (X3_guard_window
              (mkRefs 0 None (Some (mkControls (Some 0) true true)) false true false)
              (mkRow None false 100 (StampAt 0) None) 1000
              (mkControls (Some 0) true true) 0
              eq_refl eq_refl eq_refl eq_refl eq_refl)
    as (_ & Hup & Hdrop & _).
  - reflexivity.
  - split; [exact Hup|]. apply Hdrop.
Defined.

Lemma onRemoteUpdate_sends_nothing row now r :
  sent (effects_of (onRemoteUpdate row now) r) = [].
Proof.
  destruct row as [row|]; [|reflexivity].
  unfold effects_of, trace_of. destruct (didInitRef r) eqn:Hinit.
  - rewrite (onRemoteUpdate_later _ _ _ Hinit).
    destruct (suppressEchoRef r) eqn:Hg.
    + rewrite (synced_suppressed _ _ _ Hg). reflexivity.
    + rewrite (synced_open _ _ _ Hg), reconcile_effects.
      destruct (member_getCurrentTime (playerControlRef r));
        [destruct (exceeds_threshold _ && _)|];
        destruct (member_setPlaying (playerControlRef r)); reflexivity.
  - rewrite (onRemoteUpdate_first _ _ _ Hinit), hydrate_effects.
    destruct (member_seekTo (playerControlRef r));
      [destruct (member_setPlaying (playerControlRef r))|]; reflexivity.
Qed.

(** X4: the remote-update handler never hands anything to
    [sendLocalUpdate] and never touches [lastSentRef] or
    [playerControlRef]; on any row and any refs it makes at most one
    [seekTo] call and at most one [setPlaying] call. *)
Theorem X4_remote_update_is_quiet row now r :
  sent (effects_of (onRemoteUpdate row now) r) = [] /\
  lastSentRef (refs_after (onRemoteUpdate row now) r) = lastSentRef r /\
  playerControlRef (refs_after (onRemoteUpdate row now) r) = playerControlRef r /\
  (List.length (seeks (effects_of (onRemoteUpdate row now) r)) <= 1)%nat /\
  (List.length (playing_calls (effects_of (onRemoteUpdate row now) r)) <= 1)%nat.
Proof.
  split; [apply onRemoteUpdate_sends_nothing|].
  split; [apply onRemoteUpdate_keeps_lastSent|].
  - destruct row as [row|]; [|repeat split; simpl; lia].
    unfold effects_of, trace_of, refs_after. destruct (didInitRef r) eqn:Hinit.
    + rewrite (onRemoteUpdate_later _ _ _ Hinit).
      destruct (suppressEchoRef r) eqn:Hg.
      * rewrite (synced_suppressed _ _ _ Hg). repeat split; simpl; lia.
      * rewrite (synced_open _ _ _ Hg), reconcile_effects, reconcile_refs.
        destruct (member_getCurrentTime (playerControlRef r));
          [destruct (exceeds_threshold _ && _)|];
          destruct (member_setPlaying (playerControlRef r));
          repeat split; simpl; lia.
    + rewrite (onRemoteUpdate_first _ _ _ Hinit), hydrate_effects, hydrate_refs.
      destruct (member_seekTo (playerControlRef r));
        [destruct (member_setPlaying (playerControlRef r))|];
        repeat split; simpl; lia.
Qed.

Lemma handleLocalTimeUpdate_forwards p time now o r :
  onTimeUpdate p = true ->
  In (CallOnTimeUpdate time) (effects_of (handleLocalTimeUpdate p time now o) r).
Proof.
  intros Hgiven. unfold handleLocalTimeUpdate, sendLocalUpdate. unfold_monad.
  rewrite Hgiven. simpl.
  destruct (now - lastSentRef r <? UPDATE_THROTTLE_MS)%Z; [|destruct o];
    left; reflexivity.
Qed.

(** X5: a periodic report that comes at least [UPDATE_THROTTLE_MS] after
    the stamp in [lastSentRef] is sent, with the reported time, the play
    state on record and its clock reading, and moves the stamp to its clock
    reading; any report less than [UPDATE_THROTTLE_MS] after that one sends
    nothing and changes no ref, but is still forwarded to the parent's
    [onTimeUpdate]. *)
Theorem X5_throttle_window p time now o r :
  (UPDATE_THROTTLE_MS <= now - lastSentRef r)%Z ->
  let m := handleLocalTimeUpdate p time now o in
  sent (effects_of m r)
  = [mkUpdate (effectiveUrl p) (isPlayingRef r) time now (userId p)] /\
  refs_after m r = set_lastSent now r /\
  forall time2 now2 o2,
    (now2 - now < UPDATE_THROTTLE_MS)%Z ->
    let m2 := handleLocalTimeUpdate p time2 now2 o2 in
    sent (effects_of m2 (refs_after m r)) = [] /\
    refs_after m2 (refs_after m r) = refs_after m r /\
    (onTimeUpdate p = true -> In (CallOnTimeUpdate time2) (effects_of m2 (refs_after m r))).
Proof.
  intros Hlate m. subst m.
  rewrite handleLocalTimeUpdate_sent, handleLocalTimeUpdate_refs.
  apply Z.ltb_ge in Hlate. rewrite Hlate.
  split; [reflexivity|]. split; [reflexivity|].
  intros time2 now2 o2 Hearly m2. subst m2.
  rewrite handleLocalTimeUpdate_sent, handleLocalTimeUpdate_refs.
  apply Z.ltb_lt in Hearly. simpl lastSentRef. rewrite Hearly.
  split; [reflexivity|]. split; [reflexivity|].
  apply handleLocalTimeUpdate_forwards.
Qed.

Lemma X5_witness :
  let p := mkProps None None true false in
  let r := mkRefs 10000 None None true true false in
  sent (effects_of (handleLocalTimeUpdate p 7 11500 SendResolved) r)
  = [mkUpdate None true 7 11500 None] /\
  sent (effects_of (handleLocalTimeUpdate p 8 12999 SendResolved)
          (refs_after (handleLocalTimeUpdate p 7 11500 SendResolved) r)) = [].
Proof.
  cbv zeta.
  destruct (X5_throttle_window (mkProps None None true false) 7 11500 SendResolved
              (mkRefs 10000 None None true true false))
    as (Hsent & _ & Hnext).
  - vm_compute. discriminate.
  - split; [exact Hsent|].
    apply (Hnext 8 12999%Z SendResolved). vm_compute. reflexivity.
Defined.

(** X6: the periodic report sends the play state of the last row
    reconciled: after a row handled in the Synced state outside the guard
    window, a report that passes the throttle carries [row.is_playing]. *)
Theorem X6_report_carries_remote_state p row now time now2 o r :
  didInitRef r = true ->
  suppressEchoRef r = false ->
  (UPDATE_THROTTLE_MS <= now2 - lastSentRef r)%Z ->
  sent (effects_of (onRemoteUpdate (Some row) now ;;
                    handleLocalTimeUpdate p time now2 o) r)
  = [mkUpdate (effectiveUrl p) (is_playing row) time now2 (userId p)].
Proof.
  intros Hinit Hopen Hlate.
  rewrite (proj2 (bind_run _ _ _)), sent_app.
  rewrite onRemoteUpdate_sends_nothing.
  rewrite handleLocalTimeUpdate_sent, onRemoteUpdate_keeps_lastSent.
  apply Z.ltb_ge in Hlate. rewrite Hlate. cbn [app].
  replace (isPlayingRef (refs_after (onRemoteUpdate (Some row) now) r))
    with (is_playing row); [reflexivity|].
  unfold refs_after.
  rewrite (onRemoteUpdate_later _ _ _ Hinit), (synced_open _ _ _ Hopen).
  rewrite reconcile_isPlaying. reflexivity.
Qed.

Lemma X6_witness :
  let p := mkProps None None false false in
  let r := mkRefs 0 None (Some (mkControls (Some 5) true true)) true true false in
  let row := mkRow None false 5 (StampAt 1000) None in
  sent (effects_of (onRemoteUpdate (Some row) 1000 ;;
                    handleLocalTimeUpdate p 5 2000 SendResolved) r)
  = [mkUpdate None false 5 2000 None].
Proof.
  cbv zeta.
  apply (X6_report_carries_remote_state (mkProps None None false false)
           (mkRow None false 5 (StampAt 1000) None) 1000 5 2000 SendResolved
           (mkRefs 0 None (Some (mkControls (Some 5) true true)) true true false)
           eq_refl eq_refl).
  vm_compute. discriminate.
Defined.

(** Every write of the periodic report happens at the clock reading of one
    of the reports. *)
Lemma periodic_writes_are_reports p acts :
  forall r t, In t (periodic_writes p acts r) -> In t (report_clocks acts).
Proof.
  induction acts as [|a acts IH]; intros r t Hin; [contradiction|].
  destruct a;
    try (cbn [periodic_writes report_clocks app] in *; apply (IH _ _ Hin)).
  rewrite report_step in Hin. cbn [report_clocks].
  destruct (now - lastSentRef r <? UPDATE_THROTTLE_MS)%Z.
  - right. apply (IH _ _ Hin).
  - destruct Hin as [<-|Hin]; [left; reflexivity|right; apply (IH _ _ Hin)].
Qed.

Lemma spaced_count l :
  forall lo hi,
    ForallOrdPairs spaced l ->
    (forall t, In t l -> lo <= t <= hi)%Z ->
    l <> [] ->
    (UPDATE_THROTTLE_MS * (Z.of_nat (List.length l) - 1) <= hi - lo)%Z.
Proof.
  unfold UPDATE_THROTTLE_MS.
  induction l as [|a l IH]; intros lo hi Hsp Hrange Hne; [congruence|].
  inversion Hsp as [|a' l' Hhead Htail]; subst.
  assert (Ha : (lo <= a <= hi)%Z) by (apply Hrange; left; reflexivity).
  destruct l as [|b l].
  - simpl. lia.
  - assert (Hrec : (1500 * (Z.of_nat (List.length (b :: l)) - 1) <= hi - (a + 1500))%Z).
    { apply IH; [exact Htail| |discriminate].
      intros t Ht. split.
      - rewrite Forall_forall in Hhead. specialize (Hhead t Ht).
        unfold spaced, UPDATE_THROTTLE_MS in Hhead. lia.
      - apply Hrange. right. exact Ht. }
    change (List.length (a :: b :: l)) with (S (List.length (b :: l))).
    rewrite Nat2Z.inj_succ. lia.
Qed.

(** X7: in a session whose periodic reports all read the clock between
    [lo] and [hi], the periodic report sends at most
    [(hi - lo) / 1500 + 1] updates, however many reports there are and
    whatever else runs in between. *)
Theorem X7_periodic_write_count p acts r lo hi :
  (lo <= hi)%Z ->
  (forall t, In t (report_clocks acts) -> lo <= t <= hi)%Z ->
  (Z.of_nat (List.length (periodic_writes p acts r))
   <= (hi - lo) / UPDATE_THROTTLE_MS + 1)%Z.
Proof.
  intros Horder Hrange.
  destruct (periodic_writes p acts r) as [|a l] eqn:E.
  - simpl. assert (0 <= (hi - lo) / UPDATE_THROTTLE_MS)%Z; [|lia].
    apply Z.div_pos; [lia|reflexivity].
  - assert (Hcount : (UPDATE_THROTTLE_MS * (Z.of_nat (List.length (a :: l)) - 1)
                      <= hi - lo)%Z).
    { apply spaced_count.
      - rewrite <- E. exact (proj1 (periodic_writes_spaced p acts r)).
      - intros t Ht. apply Hrange. apply (periodic_writes_are_reports p acts r).
        rewrite E. exact Ht.
      - discriminate. }
    assert (Z.of_nat (List.length (a :: l)) - 1 <= (hi - lo) / UPDATE_THROTTLE_MS)%Z;
      [|lia].
    apply Z.div_le_lower_bound; [reflexivity|exact Hcount].
Qed.

Lemma X7_witness :
  let p := mkProps None None false false in
  (Z.of_nat (List.length
     (periodic_writes p
        [LocalTimeUpdate 0 2000 SendResolved; LocalTimeUpdate 1 2400 SendResolved;
         LocalTimeUpdate 2 2800 SendResolved; LocalTimeUpdate 3 3600 SendResolved]
        initialRefs))
   <= (3600 - 2000) / UPDATE_THROTTLE_MS + 1)%Z.
Proof.
  cbv zeta.
  apply (X7_periodic_write_count (mkProps None None false false)
           [LocalTimeUpdate 0 2000 SendResolved; LocalTimeUpdate 1 2400 SendResolved;
            LocalTimeUpdate 2 2800 SendResolved; LocalTimeUpdate 3 3600 SendResolved]
           initialRefs 2000 3600).
  - lia.
  - simpl. intros t [<-|[<-|[<-|[<-|[]]]]]; lia.
Defined.

Lemma onSeekToTime_effects p t r :
  effects_of (onSeekToTime p t) r =
  match t with
  | Some t =>
      if member_seekTo (playerControlRef r)
      then CallSeekTo t :: (if onSeekComplete p then [CallOnSeekComplete] else [])
      else []
  | None => []
  end.
Proof.
  unfold onSeekToTime. unfold_monad. destruct t as [t|]; [|reflexivity].
  simpl. destruct (member_seekTo (playerControlRef r)); [|reflexivity].
  destruct (onSeekComplete p); reflexivity.
Qed.

(** X8: a seek requested by the parent through [seekToTime] while the
    player does not offer [seekTo] makes no call and does not report
    completion; it is kept in the pending slot and issued exactly once, to
    the requested time, when controls that offer [seekTo] are registered.
    With [seekTo] on offer the seek is issued at once, completion is
    reported, and the pending slot is left alone. *)
Theorem X8_external_seek p t r :
  (member_seekTo (playerControlRef r) = false ->
   effects_of (onSeekToTime p (Some t)) r = [] /\
   forall c, seekTo c = true ->
     effects_of (onSeekToTime p (Some t) ;; setPlayerControls (Some c)) r
     = [CallSeekTo t] /\
     pendingSeekRef (refs_after (onSeekToTime p (Some t) ;; setPlayerControls (Some c)) r)
     = None) /\
  (member_seekTo (playerControlRef r) = true ->
   effects_of (onSeekToTime p (Some t)) r
   = CallSeekTo t :: (if onSeekComplete p then [CallOnSeekComplete] else []) /\
   refs_after (onSeekToTime p (Some t)) r = r) /\
  onSeekToTime p None r = (tt, r, []).
Proof.
  split; [|split; [|reflexivity]].
  - intros Hnone. rewrite onSeekToTime_effects, Hnone.
    split; [reflexivity|]. intros c Hseek.
    destruct (bind_run (onSeekToTime p (Some t)) (setPlayerControls (Some c)) r)
      as [Hrefs Heffects].
    rewrite Hrefs, Heffects, onSeekToTime_effects, onSeekToTime_refs, Hnone.
    rewrite setPlayerControls_effects, setPlayerControls_refs. simpl.
    rewrite Hseek. split; reflexivity.
  - intros Hseek. rewrite onSeekToTime_effects, onSeekToTime_refs, Hseek.
    split; reflexivity.
Qed.

Lemma X8_witness :
  let p := mkProps None None false true in
  effects_of (onSeekToTime p (Some 30)) initialRefs = [] /\
  effects_of (onSeekToTime p (Some 30) ;;
              setPlayerControls (Some (mkControls (Some 0) true true))) initialRefs
  = [CallSeekTo 30] /\
  effects_of (onSeekToTime p (Some 30))
             (mkRefs 0 None (Some (mkControls (Some 0) true true)) false true false)
  = [CallSeekTo 30; CallOnSeekComplete].
Proof.
  cbv zeta.
  destruct (X8_external_seek (mkProps None None false true) 30 initialRefs)
    as (Hlater & _ & _).
  destruct (Hlater eq_refl) as (Hquiet & Hregister).
  split; [exact Hquiet|]. split.
  - exact (proj1 (Hregister (mkControls (Some 0) true true) eq_refl)).
  - exact (proj1 (proj1 (proj2 (X8_external_seek
                                  (mkProps None None false true) 30
                                  (mkRefs 0 None (Some (mkControls (Some 0) true true))
                                          false true false)))
                        eq_refl)).
Defined.

(** X9: the URL given to the player is the [youtubeUrl] prop when that is a
    non-empty string, else the [initialYoutubeUrl] prop when that is a
    non-empty string, else the [video_url] of the latest row; it is never
    [null], and the [video_url] of the updates sent is [null] exactly when
    it is [undefined]. *)
Theorem X9_effective_url youtubeUrl initialYoutubeUrl latest :
  let url := effectiveUrl_of youtubeUrl initialYoutubeUrl latest in
  (truthy youtubeUrl = true -> url = youtubeUrl) /\
  (truthy youtubeUrl = false -> truthy initialYoutubeUrl = true ->
   url = initialYoutubeUrl) /\
  (truthy youtubeUrl = false -> truthy initialYoutubeUrl = false ->
   url = js_nullish (latest_video_url latest) Undefined) /\
  url <> Null /\
  (sent_video_url url = None <-> url = Undefined).
Proof.
  intros url.
  assert (Hstr : forall u, truthy u = true -> js_nullish u Undefined = u /\ u <> Null
                           /\ u <> Undefined /\ sent_video_url u <> None).
  { intros [| |s0] Hu; try discriminate. repeat split; discriminate. }
  assert (Hnull : forall u, js_nullish u Undefined <> Null /\
                            (sent_video_url (js_nullish u Undefined) = None
                             <-> js_nullish u Undefined = Undefined)).
  { intros [| |s0]; simpl; repeat split; intros; try discriminate; reflexivity. }
  assert (Hcases :
            (truthy youtubeUrl = true /\ url = youtubeUrl) \/
            (truthy youtubeUrl = false /\ truthy initialYoutubeUrl = true
             /\ url = initialYoutubeUrl) \/
            (truthy youtubeUrl = false /\ truthy initialYoutubeUrl = false
             /\ url = js_nullish (latest_video_url latest) Undefined)).
  { subst url. unfold effectiveUrl_of, js_or.
    destruct (truthy youtubeUrl) eqn:Hy.
    - left. rewrite Hy. split; [reflexivity|]. apply (Hstr _ Hy).
    - right. destruct (truthy initialYoutubeUrl) eqn:Hi.
      + left. repeat split. apply (Hstr _ Hi).
      + right. repeat split. }
  destruct Hcases as [(Hy & ->)|[(Hy & Hi & ->)|(Hy & Hi & ->)]].
  - destruct (Hstr _ Hy) as (_ & H1 & H2 & H3).
    repeat split; try congruence; try tauto.
  - destruct (Hstr _ Hi) as (_ & H1 & H2 & H3).
    repeat split; try congruence; try tauto.
  - destruct (Hnull (latest_video_url latest)) as (H1 & H2).
    repeat split; try congruence; try tauto.
Qed.

Lemma X9_witness :
  effectiveUrl_of (Str "https://youtu.be/dQw4w9WgXcQ") (Str "https://example.org/a")
                  (Some (Str "https://example.org/b"))
  = Str "https://youtu.be/dQw4w9WgXcQ" /\
  effectiveUrl_of (Str "") Null (Some (Str "https://example.org/b"))
  = Str "https://example.org/b".
Proof.
  split.
  - exact (proj1 (X9_effective_url (Str "https://youtu.be/dQw4w9WgXcQ")
                    (Str "https://example.org/a")
                    (Some (Str "https://example.org/b"))) eq_refl).
  - exact (proj1 (proj2 (proj2 (X9_effective_url (Str "") Null
                                  (Some (Str "https://example.org/b")))))
                 eq_refl eq_refl).
Defined.

End PlaybackMoreFacts.

(* ================================================================== *)
(** * Facts about the stroke routes *)
(* ================================================================== *)

Module StrokeRoutesFacts.

Import Drawing StrokeStore StrokeRoutes StrokeFacts.
Local Open Scope Z_scope.

Lemma find_after_delete_same roomId collection :
  find_by_room roomId
    (filter (fun d => negb (room_id d =? roomId)) collection) = [].
Proof.
  unfold find_by_room. induction collection as [|d l IH]; [reflexivity|].
  simpl. destruct (room_id d =? roomId) eqn:E; simpl; [exact IH|].
  rewrite E. exact IH.
Qed.

Lemma find_after_delete_other roomId other collection :
  other <> roomId ->
  find_by_room other
    (filter (fun d => negb (room_id d =? roomId)) collection)
  = find_by_room other collection.
Proof.
  intros Hother. unfold find_by_room.
  induction collection as [|d l IH]; [reflexivity|].
  simpl. destruct (room_id d =? roomId) eqn:E; simpl.
  - apply Z.eqb_eq in E.
    destruct (room_id d =? other) eqn:E'; [apply Z.eqb_eq in E'; congruence|].
    exact IH.
  - destruct (room_id d =? other); [rewrite IH|]; auto.
Qed.

(** X10: after a [DELETE] that succeeds, the list of the room is empty and
    the list of every other room is what it was; a [DELETE] whose query
    throws answers 500 and removes nothing. *)
Theorem X10_delete_then_list tie roomId collection :
  let cleared := fst (delete_strokes Resolves roomId collection) in
  get_strokes tie (DbUp cleared) roomId = Json 200 [] /\
  (forall other, other <> roomId ->
                 get_strokes tie (DbUp cleared) other
                 = get_strokes tie (DbUp collection) other) /\
  delete_strokes Throws roomId collection = (collection, DeleteError 500).
Proof.
  simpl. split; [|split; [|reflexivity]].
  - rewrite find_after_delete_same. reflexivity.
  - intros other Hother. rewrite (find_after_delete_other _ _ _ Hother). reflexivity.
Qed.

Lemma X10_witness :
  let a := mkDoc 7 [] "#fff" 10 None in
  let b := mkDoc 8 [] "#000" 20 None in
  get_strokes (fun _ _ => true) (DbUp (fst (delete_strokes Resolves 7 [a; b]))) 8
  = Json 200 [b].
Proof.
  cbv zeta.
  rewrite (proj1 (proj2 (X10_delete_then_list (fun _ _ => true) 7
                           [mkDoc 7 [] "#fff" 10 None; mkDoc 8 [] "#000" 20 None]))
                 8) by lia.
  reflexivity.
Defined.

Lemma insert_last tie e d m :
  created_at e < created_at d ->
  insert_by_created_at tie e (m ++ [d]) = insert_by_created_at tie e m ++ [d].
Proof.
  intros Hlt. induction m as [|f m IH]; simpl.
  - unfold goes_before. apply Z.ltb_lt in Hlt. rewrite Hlt. reflexivity.
  - destruct (goes_before tie e f); [reflexivity|].
    rewrite IH. reflexivity.
Qed.

(** Sorting a list whose last element is newer than the others leaves that
    element last, however the ties among the others fall. *)
Lemma sort_last tie d l :
  Forall (fun e => created_at e < created_at d) l ->
  sort_by_created_at tie (l ++ [d]) = sort_by_created_at tie l ++ [d].
Proof.
  induction l as [|e l IH]; intros Hall; [reflexivity|].
  inversion Hall; subst. simpl. rewrite IH by assumption.
  apply insert_last. assumption.
Qed.

Lemma find_app n l1 l2 :
  find_by_room n (l1 ++ l2) = find_by_room n l1 ++ find_by_room n l2.
Proof. apply filter_app. Qed.

(** The list of a room after a document of that room, newer than the ones
    there, was appended to the collection. *)
Lemma list_after_append tie room d collection :
  room_id d = room ->
  (forall e, In e collection -> room_id e = room -> created_at e < created_at d) ->
  sort_by_created_at tie (find_by_room room (collection ++ [d]))
  = sort_by_created_at tie (find_by_room room collection) ++ [d].
Proof.
  intros Hroom Hclock. rewrite find_app. unfold find_by_room at 2. simpl.
  rewrite Hroom, Z.eqb_refl.
  apply sort_last. apply Forall_forall. intros e He. unfold find_by_room in He.
  apply filter_In in He. destruct He as [Hin He].
  apply Z.eqb_eq in He. apply Hclock; assumption.
Qed.

(** X11: a stroke posted at a clock reading later than the [created_at] of
    every stroke already stored for its room comes back last in the list
    of that room, after the strokes that were there, however the sort
    orders strokes of equal [created_at]; the list of every other room is
    what it was; a [POST] whose save throws answers 500 and stores
    nothing. *)
Theorem X11_post_then_list tie room strokes color created_by now collection :
  (forall e, In e collection -> room_id e = room -> created_at e < now) ->
  let newStroke := mkDoc room strokes color now created_by in
  let stored := fst (post_stroke Resolves room strokes color created_by now collection) in
  post_stroke Resolves room strokes color created_by now collection
  = (collection ++ [newStroke], PostJson 201 newStroke) /\
  get_strokes tie (DbUp stored) room
  = Json 200 (sort_by_created_at tie (find_by_room room collection) ++ [newStroke]) /\
  (forall other, other <> room ->
                 get_strokes tie (DbUp stored) other
                 = get_strokes tie (DbUp collection) other) /\
  post_stroke Throws room strokes color created_by now collection
  = (collection, PostError 500).
Proof.
  intros Hclock. simpl. split; [reflexivity|]. split; [|split; [|reflexivity]].
  - rewrite list_after_append; [reflexivity|reflexivity|exact Hclock].
  - intros other Hother. rewrite find_app. unfold find_by_room at 2. simpl.
    destruct (room =? other) eqn:E; [apply Z.eqb_eq in E; congruence|].
    rewrite app_nil_r. reflexivity.
Qed.

Lemma X11_witness :
  let a := mkDoc 7 [] "#fff" 10 None in
  let b := mkDoc 7 [] "#000" 20 None in
  get_strokes (fun _ _ => false)
              (DbUp (fst (post_stroke Resolves 7 [] "#0f0" None 30 [b; a]))) 7
  = Json 200 [a; b; mkDoc 7 [] "#0f0" 30 None].
Proof.
  cbv zeta.
  destruct (X11_post_then_list (fun _ _ => false) 7 [] "#0f0" None 30
              [mkDoc 7 [] "#000" 20 None; mkDoc 7 [] "#fff" 10 None])
    as (_ & Hlist & _).
  - simpl. intros e [<-|[<-|[]]] _; simpl; lia.
  - exact Hlist.
Defined.

(** With a tie the newest stroke need not come back last: a stroke posted
    in the millisecond of the one stored before it can be listed first. *)
Example post_in_the_same_millisecond :
  let b := mkDoc 7 [] "#000" 20 None in
  get_strokes (fun _ _ => true)
              (DbUp (fst (post_stroke Resolves 7 [] "#0f0" None 20 [b]))) 7
  = Json 200 [b; mkDoc 7 [] "#0f0" 20 None] /\
  get_strokes (fun _ _ => false)
              (DbUp (fst (post_stroke Resolves 7 [] "#0f0" None 20 [b]))) 7
  = Json 200 [mkDoc 7 [] "#0f0" 20 None; b].
Proof. split; reflexivity. Qed.

End StrokeRoutesFacts.

(* ================================================================== *)
(** * Facts about local drawing, the legacy [draw] event and resize *)
(* ================================================================== *)

Module PadFacts.

Import Drawing StrokeStore StrokeSync Pad DrawingFacts StrokeFacts.
Local Open Scope Q_scope.

Lemma moves_all_moves gs : all_moves (moves gs).
Proof.
  unfold all_moves. induction gs as [|[ox oy|] gs IH]; simpl.
  - constructor.
  - constructor; [reflexivity|exact IH].
  - exact IH.
Qed.

Lemma calls_of_local_stroke ox oy ms c :
  all_moves ms ->
  calls_of_stroke (mkPoint "start" ox oy :: ms) c
  = BeginPath :: MoveTo ox oy :: flat_map (fun q => [LineTo (x q) (y q); Stroke c]) ms.
Proof.
  intros Hall. rewrite calls_of_stroke_cons, (loop_moves c ms Hall). reflexivity.
Qed.

(** What a drag does to a pad that is drawing: the path and the canvas
    grow by the points moved through, and every such point is either
    broadcast in a batch or still in the buffer. *)
Lemma drag_spec gs :
  forall p context,
    isDrawing p = true ->
    contextRef (board p) = Some context ->
    exists buffer out,
      drag gs p
      = Some (mkPad (set_context
                       (Some (mkContext (strokeStyle context)
                                (calls context
                                 ++ flat_map (fun q => [LineTo (x q) (y q);
                                                        Stroke (strokeStyle context)])
                                             (moves gs))))
                       (board p))
                    (roomId p) true buffer (batchTimerRef p)
                    (currentPathRef p ++ moves gs),
              out) /\
      batched out ++ buffer = pointsBuffer p ++ moves gs /\
      posted out = [].
Proof.
  induction gs as [|g gs IH]; intros p context Hdrawing Hcontext.
  - exists (pointsBuffer p), []. simpl. rewrite !app_nil_r.
    split; [|split; reflexivity].
    destruct p as [b rid d buf t path]. destruct b as [cv cx uid store col].
    simpl in *. subst. destruct context. reflexivity.
  - destruct g as [ox oy|]; simpl drag; unfold gesture.
    + unfold draw. rewrite Hdrawing, Hcontext. simpl.
      destruct (IH (mkPad (set_context (Some (stroke (lineTo ox oy context))) (board p))
                          (roomId p) true
                          (pointsBuffer p ++ [mkPoint "move" ox oy]) (batchTimerRef p)
                          (currentPathRef p ++ [mkPoint "move" ox oy]))
                   (stroke (lineTo ox oy context)))
        as (buffer & out & Hdrag & Hflow & Hposted).
      * reflexivity.
      * reflexivity.
      * simpl in Hdrag, Hflow. rewrite Hdrag. eexists buffer, _. split; [|split].
        -- simpl. rewrite <- !app_assoc. reflexivity.
        -- simpl. rewrite Hflow. simpl. rewrite <- app_assoc. reflexivity.
        -- simpl. exact Hposted.
    + unfold sendBatchedPoints.
      destruct (List.length (pointsBuffer p) =? 0)%nat eqn:Hempty; cbn [andThen].
      * destruct (IH p context Hdrawing Hcontext) as (buffer & out & Hdrag & Hflow & Hposted).
        rewrite Hdrag. exists buffer, out. simpl. repeat split; assumption.
      * destruct (IH (mkPad (board p) (roomId p) (isDrawing p) [] (batchTimerRef p)
                            (currentPathRef p)) context Hdrawing Hcontext)
          as (buffer & out & Hdrag & Hflow & Hposted).
        rewrite Hdrag. eexists buffer, _. split; [|split].
        -- simpl. reflexivity.
        -- simpl. rewrite <- app_assoc, Hflow. reflexivity.
        -- simpl. exact Hposted.
Qed.

Lemma batched_app l1 l2 : batched (l1 ++ l2) = batched l1 ++ batched l2.
Proof.
  induction l1 as [|k l1 IH]; [reflexivity|].
  destruct k; simpl; rewrite IH; try reflexivity. apply app_assoc.
Qed.

Lemma posted_app l1 l2 : posted (l1 ++ l2) = posted l1 ++ posted l2.
Proof.
  induction l1 as [|k l1 IH]; [reflexivity|].
  destruct k; simpl; rewrite IH; reflexivity.
Qed.

(** The pointer-up or pointer-leave handler on a pad with a context: the
    buffer is flushed, and a path that is there is stored and posted, and
    stays in [currentPathRef]. *)
Lemma stopDrawing_spec p context :
  contextRef (board p) = Some context ->
  exists out,
    stopDrawing p
    = Some (mkPad (match currentPathRef p with
                   | [] => board p
                   | _ :: _ =>
                       push_stroke (mkEntry (currentPathRef p) (currentColor (board p)))
                                   (board p)
                   end)
                  (roomId p) false [] false (currentPathRef p),
            out) /\
    batched out = pointsBuffer p /\
    posted out = match currentPathRef p with
                 | [] => []
                 | _ :: _ => [(roomId p, currentPathRef p, currentColor (board p))]
                 end.
Proof.
  intros Hcontext. unfold stopDrawing, sendBatchedPoints.
  rewrite Hcontext. cbn [pointsBuffer].
  destruct (pointsBuffer p) as [|b buffer], (currentPathRef p) as [|q path] eqn:Hpath;
    cbn [List.length Nat.eqb currentPathRef batchTimerRef roomId board pointsBuffer
         Nat.ltb Nat.leb];
    rewrite ?Hpath; cbn [List.length Nat.eqb Nat.ltb Nat.leb];
    eexists; (split; [reflexivity|]);
    rewrite ?batched_app, ?posted_app;
    destruct (batchTimerRef p); split; simpl; rewrite ?app_nil_r; reflexivity.
Qed.

(** A whole stroke on a pad with a context and an empty buffer. *)
Lemma draw_stroke_spec ox oy gs p context :
  contextRef (board p) = Some context ->
  pointsBuffer p = [] ->
  let color := currentColor (board p) in
  let path := mkPoint "start" ox oy :: moves gs in
  exists out,
    draw_stroke ox oy gs p
    = Some (mkPad (push_stroke (mkEntry path color)
                     (set_context
                        (Some (mkContext color
                                 (calls context ++ calls_of_stroke path color)))
                        (board p)))
                  (roomId p) false [] false path,
            out) /\
    batched out = path /\
    posted out = [(roomId p, path, color)].
Proof.
  intros Hcontext Hbuffer color path. subst path.
  rewrite (calls_of_local_stroke ox oy (moves gs) color (moves_all_moves gs)).
  unfold draw_stroke, startDrawing. rewrite Hcontext, Hbuffer.
  fold color. cbn [andThen app].
  destruct (drag_spec gs
              (mkPad (set_context
                        (Some (moveTo ox oy (beginPath (set_strokeStyle color context))))
                        (board p))
                     (roomId p) true [mkPoint "start" ox oy] true [mkPoint "start" ox oy])
              (moveTo ox oy (beginPath (set_strokeStyle color context)))
              eq_refl eq_refl)
    as (buffer & out & Hdrag & Hflow & Hposted).
  simpl in Hdrag, Hflow. rewrite Hdrag. cbn [andThen].
  edestruct stopDrawing_spec as (out2 & Hstop & Hbatched2 & Hposted2);
    [|rewrite Hstop]; [reflexivity|].
  cbn [currentPathRef board pointsBuffer roomId app] in *.
  eexists. split; [|split].
  - unfold push_stroke, set_context. simpl. rewrite <- !app_assoc. reflexivity.
  - rewrite !batched_app, Hbatched2.
    destruct (batchTimerRef p); simpl; exact Hflow.
  - rewrite !posted_app, Hposted, Hposted2.
    destruct (batchTimerRef p); reflexivity.
Qed.

(** X12: over a whole stroke, from pointer-down to pointer-up on a pad
    with a context and an empty buffer, with nothing but pointer moves and
    10 ms ticks in between (no [POST] of an earlier stroke settles
    meanwhile), and however the ticks fall between the moves: the
    [draw_batch] broadcasts carry, batch after batch, exactly the points of
    the stroke in order (the ['start'] point, then one ['move'] point per
    pointer move); the stroke is pushed once on the stroke store and handed
    once to [POST /strokes], with the same points and the current colour;
    the buffer and the interval are cleared.  The path stays in
    [currentPathRef] while the [POST] is pending and is emptied when it
    settles, with an error logged when it failed. *)
Theorem X12_stroke_batches ox oy gs p context :
  contextRef (board p) = Some context ->
  pointsBuffer p = [] ->
  let color := currentColor (board p) in
  let path := mkPoint "start" ox oy :: moves gs in
  exists p' out,
    draw_stroke ox oy gs p = Some (p', out) /\
    batched out = path /\
    posted out = [(roomId p, path, color)] /\
    strokesStoreRef (board p') = strokesStoreRef (board p) ++ [mkEntry path color] /\
    pointsBuffer p' = [] /\ isDrawing p' = false /\ batchTimerRef p' = false /\
    currentPathRef p' = path /\
    forall saved,
      stopDrawing_settled saved p'
      = (mkPad (board p') (roomId p) false [] false [],
         match saved with ResponseOk _ => [] | _ => [ConsoleErrorPad] end).
Proof.
  intros Hcontext Hbuffer color path.
  destruct (draw_stroke_spec ox oy gs p context Hcontext Hbuffer)
    as (out & Hrun & Hbatched & Hposted).
  eexists _, out. split; [exact Hrun|].
  split; [exact Hbatched|]. split; [exact Hposted|].
  repeat split.
Qed.

Lemma X12_witness :
  let w := mkWhiteboard (Some (mkCanvas 800 600)) (Some (mkContext "#3ecf8e" []))
                        "k3j9x" [] "#3ecf8e" in
  let p := mkPad w (Some 7%Z) false [] false [] in
  exists p' out,
    draw_stroke 1 2 [MouseMove 3 4; Tick; MouseMove 5 6] p = Some (p', out) /\
    batched out = [mkPoint "start" 1 2; mkPoint "move" 3 4; mkPoint "move" 5 6].
Proof.
  cbv zeta.
  destruct (X12_stroke_batches 1 2 [MouseMove 3 4; Tick; MouseMove 5 6]
              (mkPad (mkWhiteboard (Some (mkCanvas 800 600))
                                   (Some (mkContext "#3ecf8e" [])) "k3j9x" [] "#3ecf8e")
                     (Some 7%Z) false [] false [])
              (mkContext "#3ecf8e" []) eq_refl eq_refl)
    as (p' & out & Hrun & Hbatched & _).
  exists p', out. split; [exact Hrun|exact Hbatched].
Defined.

Example two_batches :
  let w := mkWhiteboard (Some (mkCanvas 800 600)) (Some (mkContext "#3ecf8e" []))
                        "k3j9x" [] "#3ecf8e" in
  let p := mkPad w (Some 7%Z) false [] false [] in
  option_map snd (draw_stroke 1 2 [MouseMove 3 4; Tick; MouseMove 5 6] p)
  = Some [SetInterval 10;
          SendDraw (mkDrawEvent "k3j9x" "start" 1 2 "#3ecf8e");
          SendDraw (mkDrawEvent "k3j9x" "move" 3 4 "#3ecf8e");
          SendDrawBatch (mkBatch "k3j9x" [mkPoint "start" 1 2; mkPoint "move" 3 4]
                                 "#3ecf8e");
          SendDraw (mkDrawEvent "k3j9x" "move" 5 6 "#3ecf8e");
          ClosePath;
          SendDrawBatch (mkBatch "k3j9x" [mkPoint "move" 5 6] "#3ecf8e");
          ClearInterval;
          PostStroke (Some 7%Z)
                     [mkPoint "start" 1 2; mkPoint "move" 3 4; mkPoint "move" 5 6]
                     "#3ecf8e"].
Proof. reflexivity. Qed.

(** X13: [stopDrawing] is the handler of both pointer-up and
    pointer-leave.  With no path and an empty buffer it stores, posts and
    broadcasts nothing.  After a stroke, a pointer-leave that comes once
    the [POST] of the pointer-up has settled finds the path emptied and
    does nothing more: the stroke is stored and posted once.  A
    pointer-leave that comes while that [POST] is still pending finds the
    path in [currentPathRef]: the stroke is pushed on the stroke store and
    posted a second time; it is not broadcast again. *)
Theorem X13_stop_after_stop ox oy gs saved p context :
  contextRef (board p) = Some context ->
  pointsBuffer p = [] ->
  let color := currentColor (board p) in
  let path := mkPoint "start" ox oy :: moves gs in
  (currentPathRef p = [] ->
   exists out,
     stopDrawing p = Some (mkPad (board p) (roomId p) false [] false [], out) /\
     posted out = [] /\ batched out = []) /\
  (exists p' out,
      andThen (andThen (draw_stroke ox oy gs p) (settle saved)) stopDrawing
      = Some (p', out) /\
      posted out = [(roomId p, path, color)] /\
      batched out = path /\
      strokesStoreRef (board p') = strokesStoreRef (board p) ++ [mkEntry path color]) /\
  (exists p' out,
      andThen (draw_stroke ox oy gs p) stopDrawing = Some (p', out) /\
      posted out = [(roomId p, path, color); (roomId p, path, color)] /\
      batched out = path /\
      strokesStoreRef (board p')
      = strokesStoreRef (board p) ++ [mkEntry path color; mkEntry path color]).
Proof.
  intros Hcontext Hbuffer color path. split; [|split].
  - intros Hpath.
    destruct (stopDrawing_spec p context Hcontext) as (out & Hstop & Hbatched & Hposted).
    rewrite Hpath in Hstop, Hposted. rewrite Hbuffer in Hbatched.
    exists out. repeat split; assumption.
  - destruct (draw_stroke_spec ox oy gs p context Hcontext Hbuffer)
      as (out & Hrun & Hbatched & Hposted).
    rewrite Hrun. unfold settle. cbn [andThen stopDrawing_settled board roomId isDrawing
                                     pointsBuffer batchTimerRef].
    edestruct stopDrawing_spec as (out2 & Hstop & Hbatched2 & Hposted2);
      [|rewrite Hstop]; [reflexivity|].
    cbn [currentPathRef board pointsBuffer roomId] in *.
    eexists _, _. split; [reflexivity|].
    rewrite !posted_app, !batched_app, Hposted, Hposted2, Hbatched, Hbatched2.
    destruct saved; simpl; rewrite ?app_nil_r; repeat split; reflexivity.
  - destruct (draw_stroke_spec ox oy gs p context Hcontext Hbuffer)
      as (out & Hrun & Hbatched & Hposted).
    rewrite Hrun. cbn [andThen].
    edestruct stopDrawing_spec as (out2 & Hstop & Hbatched2 & Hposted2);
      [|rewrite Hstop]; [reflexivity|].
    cbn [currentPathRef board pointsBuffer roomId] in *.
    eexists _, _. split; [reflexivity|].
    rewrite !posted_app, !batched_app, Hposted, Hposted2, Hbatched, Hbatched2.
    rewrite app_nil_r. split; [reflexivity|]. split; [reflexivity|].
    unfold push_stroke. simpl. rewrite <- app_assoc. reflexivity.
Qed.

Lemma X13_witness :
  let w := mkWhiteboard (Some (mkCanvas 800 600)) (Some (mkContext "#3ecf8e" []))
                        "k3j9x" [] "#3ecf8e" in
  let p := mkPad w (Some 7%Z) false [] false [] in
  let path := [mkPoint "start" 1 2; mkPoint "move" 3 4] in
  exists p' out,
    andThen (draw_stroke 1 2 [MouseMove 3 4] p) stopDrawing = Some (p', out) /\
    posted out = [(Some 7%Z, path, "#3ecf8e"%string); (Some 7%Z, path, "#3ecf8e"%string)].
Proof.
  cbv zeta.
  destruct (proj2 (proj2 (X13_stop_after_stop 1 2 [MouseMove 3 4] (ResponseOk tt)
                     (mkPad (mkWhiteboard (Some (mkCanvas 800 600))
                                          (Some (mkContext "#3ecf8e" [])) "k3j9x" []
                                          "#3ecf8e")
                            (Some 7%Z) false [] false [])
                     (mkContext "#3ecf8e" []) eq_refl eq_refl)))
    as (p' & out & Hrun & Hposted & _).
  exists p', out. split; [exact Hrun|exact Hposted].
Defined.

(** X14: a stroke drawn in room [room] and saved at a clock reading later
    than every stroke already stored for that room comes back to a
    participant who joins that room afterwards as the last stroke of the
    history, however the sort orders strokes of equal [created_at]; its
    replay makes on the joiner's canvas the drawing calls ([beginPath],
    [moveTo], [lineTo], [stroke]) that drawing it made on the drawer's
    canvas, in the same order and colour, and the joiner's stroke store
    ends with the same points and colour. *)
Theorem X14_persist_then_replay parseInt tie ox oy gs p context room now collection
        joinerRoom joiner jc :
  contextRef (board p) = Some context ->
  pointsBuffer p = [] ->
  roomId p = Some room ->
  (forall e, In e collection -> room_id e = room -> (created_at e < now)%Z) ->
  parseInt joinerRoom = Some room ->
  contextRef joiner = Some jc ->
  let ink_color := currentColor (board p) in
  let path := mkPoint "start" ox oy :: moves gs in
  let before := sort_by_created_at tie (find_by_room room collection) in
  exists p' out stored history,
    draw_stroke ox oy gs p = Some (p', out) /\
    posted out = [(Some room, path, ink_color)] /\
    context_calls (board p') = calls context ++ calls_of_stroke path ink_color /\
    StrokeRoutes.post_stroke StrokeRoutes.Resolves room path ink_color None now collection
    = (stored, StrokeRoutes.PostJson 201 (mkDoc room path ink_color now None)) /\
    In (FetchGetStrokes joinerRoom)
       (on_subscribe "SUBSCRIBED" TrackResolved joinerRoom joiner) /\
    StrokeRoutes.serve_get parseInt tie (DbUp stored) (FetchGetStrokes joinerRoom)
    = Some history /\
    let joined := fst (on_strokes_fetched (fetched_of history) joiner) in
    context_calls joined
    = calls jc
      ++ flat_map (fun s => calls_of_stroke (strokes s) (StrokeStore.color s)) before
      ++ calls_of_stroke path ink_color /\
    strokesStoreRef joined
    = strokesStoreRef joiner ++ map entry_of before ++ [mkEntry path ink_color].
Proof.
  intros Hcontext Hbuffer Hroom Hclock Hjoin Hjc ink_color path before.
  destruct (draw_stroke_spec ox oy gs p context Hcontext Hbuffer)
    as (out & Hrun & _ & Hposted).
  eexists _, out, _, _. split; [exact Hrun|].
  split; [rewrite Hposted, Hroom; reflexivity|].
  split; [reflexivity|].
  split; [reflexivity|].
  split; [right; left; reflexivity|].
  split; [unfold StrokeRoutes.serve_get; rewrite Hjoin; reflexivity|].
  cbn [get_strokes].
  rewrite (StrokeRoutesFacts.list_after_append tie room (mkDoc room path ink_color now None)
             collection eq_refl Hclock).
  fold before.
  change (fetched_of (Json 200 (before ++ [mkDoc room path ink_color now None])))
    with (ResponseOk (before ++ [mkDoc room path ink_color now None])).
  destruct (on_strokes_fetched_store (before ++ [mkDoc room path ink_color now None])
                                     joiner) as [Hstore Hcalls].
  destruct (replay_all (before ++ [mkDoc room path ink_color now None]) joiner)
    as [Hstore' Hcalls'].
  cbv zeta. rewrite Hstore, Hcalls, Hstore', Hcalls', Hjc.
  unfold context_calls. rewrite Hjc, flat_map_app, map_app. simpl.
  rewrite app_nil_r. split; reflexivity.
Qed.

Lemma X14_witness :
  let w := mkWhiteboard (Some (mkCanvas 800 600)) (Some (mkContext "#3ecf8e" []))
                        "k3j9x" [] "#3ecf8e" in
  let p := mkPad w (Some 7%Z) false [] false [] in
  let joiner := mkWhiteboard (Some (mkCanvas 640 480)) (Some (mkContext "#3ecf8e" []))
                             "q7w2e" [] "#3ecf8e" in
  let path := [mkPoint "start" 10 10; mkPoint "move" 20 20] in
  let old := mkDoc 7 [mkPoint "start" 1 1; mkPoint "move" 2 2] "#fff" 900 None in
  exists stored history,
    StrokeRoutes.post_stroke StrokeRoutes.Resolves 7 path "#3ecf8e" None 1000 [old]
    = (stored, StrokeRoutes.PostJson 201 (mkDoc 7 path "#3ecf8e" 1000 None)) /\
    StrokeRoutes.serve_get StrokeRoutes.reads_seven (fun _ _ => false) (DbUp stored)
                           (FetchGetStrokes "7") = Some history /\
    context_calls (fst (on_strokes_fetched (fetched_of history) joiner))
    = [BeginPath; MoveTo 1 1; LineTo 2 2; Stroke "#fff";
       BeginPath; MoveTo 10 10; LineTo 20 20; Stroke "#3ecf8e"].
Proof.
  cbv zeta.
  destruct (X14_persist_then_replay StrokeRoutes.reads_seven (fun _ _ => false)
              10 10 [MouseMove 20 20]
              (mkPad (mkWhiteboard (Some (mkCanvas 800 600))
                                   (Some (mkContext "#3ecf8e" [])) "k3j9x" [] "#3ecf8e")
                     (Some 7%Z) false [] false [])
              (mkContext "#3ecf8e" []) 7 1000
              [mkDoc 7 [mkPoint "start" 1 1; mkPoint "move" 2 2] "#fff" 900 None]
              "7"
              (mkWhiteboard (Some (mkCanvas 640 480)) (Some (mkContext "#3ecf8e" []))
                            "q7w2e" [] "#3ecf8e")
              (mkContext "#3ecf8e" [])
              eq_refl eq_refl eq_refl)
    as (p' & out & stored & history & _ & _ & _ & Hpost & _ & Hserved & Hjoiner & _).
  - simpl. intros e [<-|[]] _. simpl. lia.
  - reflexivity.
  - reflexivity.
  - exists stored, history. split; [exact Hpost|]. split; [exact Hserved|].
    exact Hjoiner.
Defined.

(** X25: a [POST] that settles late reaches into the next stroke.  When
    the [POST] of an earlier stroke settles after the pointer-down of a new
    stroke, line 352 empties the path of the new stroke: the broadcasts
    still carry every point of the new stroke, but what is pushed on the
    stroke store and posted at its pointer-up holds only the points moved
    through after the settling, without the ['start'] point; and when
    there are none it is not stored or posted at all. *)
Theorem X25_late_settle_cuts_the_path ox oy gs1 saved gs2 p context :
  contextRef (board p) = Some context ->
  pointsBuffer p = [] ->
  let color := currentColor (board p) in
  exists p' out,
    andThen (andThen (andThen (andThen (startDrawing ox oy p) (drag gs1)) (settle saved))
                     (drag gs2))
            stopDrawing
    = Some (p', out) /\
    batched out = mkPoint "start" ox oy :: moves gs1 ++ moves gs2 /\
    posted out = match moves gs2 with
                 | [] => []
                 | _ :: _ => [(roomId p, moves gs2, color)]
                 end /\
    strokesStoreRef (board p')
    = strokesStoreRef (board p)
      ++ match moves gs2 with
         | [] => []
         | _ :: _ => [mkEntry (moves gs2) color]
         end.
Proof.
  intros Hcontext Hbuffer color.
  unfold startDrawing. rewrite Hcontext, Hbuffer. fold color. cbn [andThen app].
  destruct (drag_spec gs1
              (mkPad (set_context
                        (Some (moveTo ox oy (beginPath (set_strokeStyle color context))))
                        (board p))
                     (roomId p) true [mkPoint "start" ox oy] true [mkPoint "start" ox oy])
              (moveTo ox oy (beginPath (set_strokeStyle color context)))
              eq_refl eq_refl)
    as (buffer1 & out1 & Hdrag1 & Hflow1 & Hposted1).
  simpl in Hdrag1, Hflow1. rewrite Hdrag1.
  unfold settle. cbn [andThen stopDrawing_settled board roomId isDrawing pointsBuffer
                      batchTimerRef].
  edestruct (drag_spec gs2) as (buffer2 & out2 & Hdrag2 & Hflow2 & Hposted2);
    [| |rewrite Hdrag2]; [reflexivity|reflexivity|].
  cbn [andThen currentPathRef pointsBuffer board roomId batchTimerRef app] in *.
  edestruct stopDrawing_spec as (out3 & Hstop & Hbatched3 & Hposted3);
    [|rewrite Hstop]; [reflexivity|].
  cbn [currentPathRef board pointsBuffer roomId currentColor set_context] in *.
  eexists _, _. split; [reflexivity|].
  rewrite !posted_app, !batched_app, Hposted1, Hposted2, Hposted3, Hbatched3.
  split; [|split].
  - destruct (batchTimerRef p), saved; simpl; rewrite ?app_nil_r;
      rewrite <- app_assoc, Hflow2, app_assoc, Hflow1; reflexivity.
  - destruct (batchTimerRef p), saved, (moves gs2); reflexivity.
  - destruct (moves gs2); simpl; rewrite ?app_nil_r; reflexivity.
Qed.

Lemma X25_witness :
  let w := mkWhiteboard (Some (mkCanvas 800 600)) (Some (mkContext "#3ecf8e" []))
                        "k3j9x" [] "#3ecf8e" in
  let p := mkPad w (Some 7%Z) false [] false [mkPoint "start" 0 0; mkPoint "move" 9 9] in
  exists p' out,
    andThen (andThen (andThen (andThen (startDrawing 1 2 p) (drag [MouseMove 3 4]))
                              (settle (ResponseOk tt)))
                     (drag [MouseMove 5 6]))
            stopDrawing
    = Some (p', out) /\
    batched out = [mkPoint "start" 1 2; mkPoint "move" 3 4; mkPoint "move" 5 6] /\
    posted out = [(Some 7%Z, [mkPoint "move" 5 6], "#3ecf8e"%string)].
Proof.
  cbv zeta.
  destruct (X25_late_settle_cuts_the_path 1 2 [MouseMove 3 4] (ResponseOk tt)
              [MouseMove 5 6]
              (mkPad (mkWhiteboard (Some (mkCanvas 800 600))
                                   (Some (mkContext "#3ecf8e" [])) "k3j9x" [] "#3ecf8e")
                     (Some 7%Z) false [] false [mkPoint "start" 0 0; mkPoint "move" 9 9])
              (mkContext "#3ecf8e" []) eq_refl eq_refl)
    as (p' & out & Hrun & Hbatched & Hposted & _).
  exists p', out. split; [exact Hrun|]. split; [exact Hbatched|exact Hposted].
Defined.

(** ** Resize *)

Lemma set_context_twice c1 c2 w : set_context c2 (set_context c1 w) = set_context c2 w.
Proof. reflexivity. Qed.

(** Drawing a list of entries one after the other appends their calls. *)
Lemma repaint_fold l :
  forall w context,
    contextRef w = Some context ->
    fold_left (fun w s => draw_on_context (points s) (entry_color s) w) l w
    = set_context
        (Some (mkContext (strokeStyle context)
                 (calls context
                  ++ flat_map (fun s => calls_of_stroke (points s) (entry_color s)) l)))
        w.
Proof.
  induction l as [|s l IH]; intros w context Hcontext.
  - simpl. rewrite app_nil_r. destruct w as [cv cx uid store col].
    simpl in *. subst. destruct context. reflexivity.
  - simpl fold_left. unfold draw_on_context at 2. rewrite Hcontext, drawStroke_calls.
    rewrite (IH _ (mkContext (strokeStyle context)
                             (calls context ++ calls_of_stroke (points s) (entry_color s))))
      by reflexivity.
    rewrite set_context_twice. simpl. rewrite <- app_assoc. reflexivity.
Qed.

Lemma setupCanvas_spec cw ch c w cv :
  canvasRef w = Some cv ->
  setupCanvas cw ch c w
  = mkWhiteboard (Some (mkCanvas cw ch))
      (Some (mkContext c
               (flat_map (fun s => calls_of_stroke (points s) (entry_color s))
                         (strokesStoreRef w))))
      (userId w) (strokesStoreRef w) (currentColor w).
Proof.
  intros Hcanvas. unfold setupCanvas, repaintAll. rewrite Hcanvas.
  cbn [contextRef strokesStoreRef].
  rewrite (repaint_fold _ _ (mkContext c [])) by reflexivity.
  reflexivity.
Qed.

(** X15: after a resize the canvas holds the replay of the stroke store,
    entry after entry, and nothing else, whatever was on it before: a
    received [clear], a received legacy [draw] point and the calls of
    earlier drawing leave no trace; the stroke store is not changed, and a
    second resize to the same size changes nothing. *)
Theorem X15_resize_replays_store cw ch c w cv :
  canvasRef w = Some cv ->
  let resized := setupCanvas cw ch c w in
  context_calls resized
  = flat_map (fun s => calls_of_stroke (points s) (entry_color s)) (strokesStoreRef w) /\
  strokesStoreRef resized = strokesStoreRef w /\
  setupCanvas cw ch c resized = resized /\
  setupCanvas cw ch c (on_clear w) = resized /\
  (forall payload, setupCanvas cw ch c (on_draw payload w) = resized) /\
  (forall context, setupCanvas cw ch c (set_context context w) = resized).
Proof.
  intros Hcanvas resized. subst resized.
  rewrite (setupCanvas_spec cw ch c w cv Hcanvas).
  split; [reflexivity|]. split; [reflexivity|].
  split; [|split; [|split]].
  - rewrite (setupCanvas_spec cw ch c _ (mkCanvas cw ch)) by reflexivity. reflexivity.
  - unfold on_clear. rewrite Hcanvas.
    destruct (contextRef w) as [context|].
    + rewrite (setupCanvas_spec cw ch c _ cv) by exact Hcanvas. reflexivity.
    + apply (setupCanvas_spec cw ch c w cv Hcanvas).
  - intros payload. unfold on_draw.
    destruct (draw_userId payload =? userId w)%string;
      [apply (setupCanvas_spec cw ch c w cv Hcanvas)|].
    destruct (contextRef w) as [context|];
      [|apply (setupCanvas_spec cw ch c w cv Hcanvas)].
    rewrite (setupCanvas_spec cw ch c _ cv) by exact Hcanvas. reflexivity.
  - intros context.
    rewrite (setupCanvas_spec cw ch c _ cv) by exact Hcanvas. reflexivity.
Qed.

Lemma X15_witness :
  let e := mkEntry [mkPoint "start" 10 10; mkPoint "move" 20 20] "#fff" in
  let w := mkWhiteboard (Some (mkCanvas 800 600))
                        (Some (mkContext "#3ecf8e" [ClearRect 0 0 800 600]))
                        "k3j9x" [e] "#3ecf8e" in
  context_calls (setupCanvas 400 300 "#3ecf8e" w)
  = [BeginPath; MoveTo 10 10; LineTo 20 20; Stroke "#fff"].
Proof.
  cbv zeta.
  exact (proj1 (X15_resize_replays_store 400 300 "#3ecf8e"
                  (mkWhiteboard (Some (mkCanvas 800 600))
                                (Some (mkContext "#3ecf8e" [ClearRect 0 0 800 600]))
                                "k3j9x"
                                [mkEntry [mkPoint "start" 10 10; mkPoint "move" 20 20]
                                         "#fff"]
                                "#3ecf8e")
                  (mkCanvas 800 600) eq_refl)).
Defined.

(** X16: a batch received from a peer is pushed on the stroke store
    whether or not there is a context to draw it on, and the context's
    [strokeStyle] is what it was before; so the batch is part of what the
    next resize repaints, after everything stored before it. *)
Theorem X16_peer_batch_survives_resize payload w cv cw ch c :
  batch_userId payload <> userId w ->
  canvasRef w = Some cv ->
  strokesStoreRef (on_draw_batch payload w)
  = strokesStoreRef w ++ [mkEntry (batch_points payload) (batch_color payload)] /\
  option_map strokeStyle (contextRef (on_draw_batch payload w))
  = option_map strokeStyle (contextRef w) /\
  context_calls (setupCanvas cw ch c (on_draw_batch payload w))
  = context_calls (setupCanvas cw ch c w)
    ++ calls_of_stroke (batch_points payload) (batch_color payload).
Proof.
  intros Hpeer Hcanvas.
  apply String.eqb_neq in Hpeer.
  assert (Hstore : strokesStoreRef (on_draw_batch payload w)
                   = strokesStoreRef w
                     ++ [mkEntry (batch_points payload) (batch_color payload)]).
  { unfold on_draw_batch. rewrite Hpeer. reflexivity. }
  assert (Hcanvas' : canvasRef (on_draw_batch payload w) = Some cv).
  { unfold on_draw_batch. rewrite Hpeer. exact Hcanvas. }
  split; [exact Hstore|]. split.
  - unfold on_draw_batch. rewrite Hpeer.
    unfold push_stroke, draw_on_context, set_context. simpl.
    destruct (contextRef w) as [context|]; [|reflexivity].
    rewrite drawStroke_calls. reflexivity.
  - rewrite (setupCanvas_spec cw ch c _ cv Hcanvas'),
            (setupCanvas_spec cw ch c _ cv Hcanvas).
    unfold context_calls. simpl. rewrite Hstore, flat_map_app. simpl.
    rewrite app_nil_r. reflexivity.
Qed.

Lemma X16_witness :
  let w := mkWhiteboard (Some (mkCanvas 800 600)) None "k3j9x" [] "#3ecf8e" in
  let payload := mkBatch "q7w2e" [mkPoint "start" 1 2; mkPoint "move" 3 4] "#f43f5e" in
  context_calls (on_draw_batch payload w) = [] /\
  context_calls (setupCanvas 800 600 "#3ecf8e" (on_draw_batch payload w))
  = [BeginPath; MoveTo 1 2; LineTo 3 4; Stroke "#f43f5e"].
Proof.
  cbv zeta. split; [reflexivity|].
  destruct (X16_peer_batch_survives_resize
              (mkBatch "q7w2e" [mkPoint "start" 1 2; mkPoint "move" 3 4] "#f43f5e")
              (mkWhiteboard (Some (mkCanvas 800 600)) None "k3j9x" [] "#3ecf8e")
              (mkCanvas 800 600) 800 600 "#3ecf8e")
    as (_ & _ & Hresize).
  - intros H. inversion H.
  - reflexivity.
  - exact Hresize.
Defined.

(** X17: a stroke made of a first point followed by ['move'] points paints
    the line through its points and nothing else: the segments painted are
    exactly those joining each point to the next, in the colour of the
    stroke, whatever was painted or left open on the canvas before; the pen
    ends on the last point. *)
Theorem X17_stroke_paints_polyline point ms c s :
  all_moves ms ->
  let pts := map coords (point :: ms) in
  exists fresh,
    paint s (calls_of_stroke (point :: ms) c)
    = mkSurface (Some (last pts (coords point))) (polyline pts) (ink s ++ fresh) /\
    forall g style, In (g, style) fresh <-> style = c /\ In g (polyline pts).
Proof.
  intros Hmoves pts. subst pts. apply stroke_paint. exact Hmoves.
Qed.

Lemma X17_witness :
  exists fresh,
    paint blank (calls_of_stroke [mkPoint "start" 10 10; mkPoint "move" 20 20] "#fff")
    = mkSurface (Some (20, 20)) [((10, 10), (20, 20))] fresh /\
    forall g style,
      In (g, style) fresh <-> style = "#fff"%string /\ In g [((10, 10), (20, 20))].
Proof.
  destruct (X17_stroke_paints_polyline (mkPoint "start" 10 10) [mkPoint "move" 20 20]
              "#fff" blank)
    as (fresh & Hpaint & Hfresh).
  - repeat constructor.
  - exists fresh. split; [exact Hpaint|exact Hfresh].
Defined.

(** X18: the current path of the canvas is shared between local drawing
    and the rendering of received batches.  When a peer's batch (a first
    point followed by ['move'] points) is rendered while a local stroke is
    in progress, the next local pointer move draws its segment from the
    last point of the batch, not from the last local point, and its
    [stroke()] paints the segments of the batch again in the local
    colour. *)
Theorem X18_peer_batch_takes_the_pen payload point ms ox oy p context s :
  contextRef (board p) = Some context ->
  isDrawing p = true ->
  batch_userId payload <> userId (board p) ->
  batch_points payload = point :: ms ->
  all_moves ms ->
  exists p' out,
    draw ox oy (set_board (on_draw_batch payload (board p)) p) = Some (p', out) /\
    context_calls (board p')
    = calls context
      ++ calls_of_stroke (point :: ms) (batch_color payload)
      ++ [LineTo ox oy; Stroke (strokeStyle context)] /\
    let after := paint s (context_calls (board p')) in
    let from := last (map coords (point :: ms)) (coords point) in
    In ((from, (ox, oy)), strokeStyle context) (ink after) /\
    forall g, In g (polyline (map coords (point :: ms))) ->
              In (g, strokeStyle context) (ink after).
Proof.
  intros Hcontext Hdrawing Hpeer Hpoints Hmoves.
  apply String.eqb_neq in Hpeer.
  unfold draw, on_draw_batch, set_board. cbn [isDrawing board]. rewrite Hdrawing, Hpeer.
  unfold push_stroke, draw_on_context, set_context.
  cbn [negb contextRef]. rewrite Hcontext, drawStroke_calls, Hpoints.
  eexists _, _. split; [reflexivity|].
  split.
  - unfold context_calls, stroke, lineTo, call. simpl.
    rewrite <- !app_assoc. reflexivity.
  - unfold context_calls, stroke, lineTo, call.
    cbn [board contextRef set_context calls strokeStyle].
    rewrite <- !app_assoc. rewrite !paint_app.
    destruct (stroke_paint point ms (batch_color payload) (paint s (calls context))
                               Hmoves)
      as (fresh & Hpaint & _).
    rewrite Hpaint. unfold paint. cbn [fold_left paint_call pen path ink app].
    split.
    + apply in_or_app. right. apply in_map_iff.
      eexists. split; [reflexivity|]. apply in_or_app. right. left. reflexivity.
    + intros g Hg. apply in_or_app. right. apply in_map_iff.
      exists g. split; [reflexivity|]. apply in_or_app. left. exact Hg.
Qed.

Lemma X18_witness :
  let w := mkWhiteboard (Some (mkCanvas 800 600)) (Some (mkContext "#3ecf8e" []))
                        "k3j9x" [] "#3ecf8e" in
  let p := mkPad w (Some 7%Z) true [] true [mkPoint "start" 0 0] in
  let payload := mkBatch "q7w2e" [mkPoint "start" 1 2; mkPoint "move" 3 4] "#f43f5e" in
  exists p' out,
    draw 9 9 (set_board (on_draw_batch payload (board p)) p) = Some (p', out) /\
    In (((3, 4), (9, 9)), "#3ecf8e"%string) (ink (paint blank (context_calls (board p')))).
Proof.
  cbv zeta.
  destruct (X18_peer_batch_takes_the_pen
              (mkBatch "q7w2e" [mkPoint "start" 1 2; mkPoint "move" 3 4] "#f43f5e")
              (mkPoint "start" 1 2) [mkPoint "move" 3 4] 9 9
              (mkPad (mkWhiteboard (Some (mkCanvas 800 600))
                                   (Some (mkContext "#3ecf8e" [])) "k3j9x" [] "#3ecf8e")
                     (Some 7%Z) true [] true [mkPoint "start" 0 0])
              (mkContext "#3ecf8e" []) blank eq_refl eq_refl)
    as (p' & out & Hdraw & _ & Hjoin & _).
  - intros H. inversion H.
  - reflexivity.
  - repeat constructor.
  - exists p', out. split; [exact Hdraw|exact Hjoin].
Defined.

End PadFacts.

(* ================================================================== *)
(** * Facts about the rooms routes and the registered controls *)
(* ================================================================== *)

Module RoomsFacts.

Import RoomsRoute DoubleFacts.
Local Open Scope Z_scope.

Lemma Math_max_nan a b : is_nan a = true -> Math_max a b = nan.
Proof. intros H. unfold Math_max. rewrite H. reflexivity. Qed.

Lemma Math_min_nan a b : is_nan a = true -> Math_min a b = nan.
Proof. intros H. unfold Math_min. rewrite H. reflexivity. Qed.

Lemma ltb_irrefl b : (b <? b)%float = false.
Proof.
  destruct (b <? b)%float eqn:Hbb; [|reflexivity].
  pose proof (leb_not_ltb _ _ (ltb_leb _ _ Hbb)). congruence.
Qed.

(** [Math.max(a, b)] is at least [b] when neither is [NaN]. *)
Lemma Math_max_bound a b :
  is_nan a = false -> is_nan b = false -> (b <=? Math_max a b)%float = true.
Proof.
  intros Ha Hb. unfold Math_max. rewrite Ha, Hb. simpl.
  destruct (a <? b)%float eqn:Hab.
  - apply not_ltb_leb; try assumption. apply ltb_irrefl.
  - destruct (b <? a)%float eqn:Hba; [apply ltb_leb; exact Hba|].
    assert (Hle : (b <=? a)%float = true) by (apply not_ltb_leb; assumption).
    destruct (is_zero a) eqn:Hzero; [|exact Hle].
    unfold is_zero in Hzero.
    assert (Hle' : (a <=? b)%float = true) by (apply not_ltb_leb; assumption).
    revert Hzero Hle Hle'. rewrite !eqb_spec, !leb_spec, add_spec.
    destruct (Prim2SF a) as [sa|sa| |sa ma ea], (Prim2SF b) as [sb|sb| |sb mb eb];
      try discriminate; try (destruct sa; discriminate);
      try (destruct sa, sb; discriminate).
    intros _ _ _. destruct sa, sb; reflexivity.
Qed.

Lemma Math_max_not_nan a b :
  is_nan a = false -> is_nan b = false -> is_nan (Math_max a b) = false.
Proof.
  intros Ha Hb. unfold Math_max. rewrite Ha, Hb. simpl.
  destruct (a <? b)%float; [exact Hb|].
  destruct (b <? a)%float; [exact Ha|].
  destruct (is_zero a) eqn:Hzero; [|exact Ha].
  unfold is_zero in Hzero. apply is_nan_false. apply is_nan_false in Hb.
  revert Hzero Hb. rewrite eqb_spec, add_spec.
  destruct (Prim2SF a) as [sa|sa| |sa ma ea], (Prim2SF b) as [sb|sb| |sb mb eb];
    try discriminate; try (destruct sa; discriminate); try congruence.
  intros _ _. destruct sa, sb; discriminate.
Qed.

(** [Math.min(a, b)] is at most [b], and at least whatever both are at
    least, when neither is [NaN]. *)
Lemma Math_min_bound c a b :
  is_nan a = false -> is_nan b = false ->
  (Math_min a b <=? b)%float = true /\
  ((c <=? a)%float = true -> (c <=? b)%float = true ->
   (c <=? Math_min a b)%float = true).
Proof.
  intros Ha Hb. unfold Math_min. rewrite Ha, Hb. simpl.
  destruct (a <? b)%float eqn:Hab; [split; [apply ltb_leb; exact Hab|tauto]|].
  destruct (b <? a)%float eqn:Hba.
  - split; [|tauto]. apply not_ltb_leb; try assumption. apply ltb_irrefl.
  - assert (Hle : (a <=? b)%float = true) by (apply not_ltb_leb; assumption).
    destruct (is_zero a) eqn:Hzero; [|split; [exact Hle|tauto]].
    unfold is_zero in Hzero.
    assert (Hle' : (b <=? a)%float = true) by (apply not_ltb_leb; assumption).
    revert Hzero Hle Hle'. rewrite !eqb_spec, !leb_spec, opp_spec, add_spec, !opp_spec.
    destruct (Prim2SF a) as [sa|sa| |sa ma ea], (Prim2SF b) as [sb|sb| |sb mb eb];
      try discriminate; try (destruct sa; discriminate);
      try (destruct sa, sb; discriminate).
    intros _ _ _. split; [destruct sa, sb; reflexivity|].
    destruct (Prim2SF c) as [sc|sc| |sc mc ec]; destruct sa, sb; simpl; tauto.
Qed.

(** X19: the page size given to the database is clamped: for every
    [limit] that [parseInt] reads as a number, the infinities of a digit
    string beyond the doubles included, the size is between 1 and 200; for
    every such [offset] the first row is at least 0.  Absent parameters
    give the rows 0 to 49.  A parameter that reads as [NaN] is not
    clamped: it stays [NaN].  The last row is [offset + limit - 1] in
    double arithmetic, so the span is the page size only as long as that
    sum is exact: at offset 2^53 a limit of 200 gives a last row 200 above
    the first, a span of 201 rows. *)
Theorem X19_page_range limit offset :
  (is_nan (parseInt_or limit 50) = false ->
   (1 <=? page_limit limit)%float = true /\
   (page_limit limit <=? 200)%float = true) /\
  (is_nan (parseInt_or offset 0) = false ->
   (0 <=? page_offset offset)%float = true /\
   fst (page_range limit offset) = page_offset offset) /\
  (is_nan (parseInt_or limit 50) = true -> page_limit limit = nan) /\
  (is_nan (parseInt_or offset 0) = true -> page_offset offset = nan) /\
  page_range QueryAbsent QueryAbsent = (0, 49)%float /\
  page_range (QueryReads infinity) (QueryReads neg_infinity) = (0, 199)%float /\
  page_range (QueryReads 1000) (QueryReads (-5)) = (0, 199)%float /\
  page_range (QueryReads 200) (QueryReads 9007199254740992)
  = (9007199254740992, 9007199254741192)%float.
Proof.
  split; [|split; [|split; [|split]]].
  - intros Hlimit. unfold page_limit.
    assert (Hmax : is_nan (Math_max (parseInt_or limit 50) 1) = false)
      by (apply Math_max_not_nan; [exact Hlimit|reflexivity]).
    destruct (Math_min_bound 1 (Math_max (parseInt_or limit 50) 1) 200 Hmax eq_refl)
      as [Hupper Hlower].
    split; [|exact Hupper].
    apply Hlower; [|reflexivity].
    apply Math_max_bound; [exact Hlimit|reflexivity].
  - intros Hoffset. split; [|reflexivity].
    apply Math_max_bound; [exact Hoffset|reflexivity].
  - intros Hlimit. unfold page_limit. rewrite (Math_max_nan _ _ Hlimit). reflexivity.
  - intros Hoffset. apply Math_max_nan. exact Hoffset.
  - repeat split; reflexivity.
Qed.

Lemma X19_witness :
  (page_limit (QueryReads infinity) <=? 200)%float = true /\
  (0 <=? page_offset (QueryReads (-5)))%float = true.
Proof.
  split.
  - apply (proj1 (X19_page_range (QueryReads infinity) QueryAbsent)). reflexivity.
  - apply (proj1 (proj2 (X19_page_range QueryAbsent (QueryReads (-5))))). reflexivity.
Defined.

(** X20: [PATCH /api/rooms/:id] resets the playback row of the room
    exactly when the body carries a [video_url] and the update of the room
    succeeds: the row upserted is then paused at position 0 with the new
    URL.  A body without [video_url] upserts nothing; the replies 400 and
    404 come before any write; and the reply is the same whether the upsert
    succeeds, fails or throws. *)
Theorem X20_patch_resets_playback roomId requesterId video_url title subject
        selected updated upserted :
  let result := patch_room roomId requesterId video_url title subject
                           selected updated upserted in
  (forall n room v,
      roomId = Some n -> fst result = RoomReply 200 room -> video_url = Given v ->
      upserts (snd result) = [mkPlaybackInit n v false 0 0 requesterId]) /\
  (video_url = Missing -> upserts (snd result) = []) /\
  (forall status, fst result = ErrorReply status -> upserts (snd result) = []) /\
  (fst result = ErrorReply 400 \/ fst result = ErrorReply 404 ->
   forall n f1 f2 f3, ~ In (UpdateRoom n f1 f2 f3) (snd result)) /\
  (forall upserted',
      fst (patch_room roomId requesterId video_url title subject
                      selected updated upserted') = fst result).
Proof.
  intros result. subst result.
  destruct roomId as [n|], selected as [| |[existing|]], video_url as [|v],
           title as [|t], subject as [|s], updated as [| |room], upserted;
    simpl; repeat split; intros;
    try discriminate; try reflexivity; try congruence;
    try (match goal with H : _ \/ _ |- _ => destruct H as [H|H]; discriminate H end);
    try (match goal with
         | |- ~ _ =>
             let Hin := fresh "Hin" in
             intros Hin; simpl in Hin;
             repeat (destruct Hin as [Hin|Hin]; try discriminate Hin);
             try contradiction
         end);
    try (match goal with
         | |- fst (patch_room _ _ _ _ _ _ _ ?u) = _ => destruct u; reflexivity
         end).
Qed.

Lemma X20_witness :
  upserts (snd (patch_room (Some 7) (Some "u1"%string)
                           (Given (Some "https://youtu.be/dQw4w9WgXcQ"%string))
                           Missing Missing
                           (SelectData (Some (mkRoom 7 None None)))
                           (WriteData (mkRoom 7 (Some "https://youtu.be/dQw4w9WgXcQ"%string)
                                              None))
                           UpsertError))
  = [mkPlaybackInit 7 (Some "https://youtu.be/dQw4w9WgXcQ"%string) false 0 0
                    (Some "u1"%string)].
Proof.
  apply (proj1 (X20_patch_resets_playback (Some 7) (Some "u1"%string)
                  (Given (Some "https://youtu.be/dQw4w9WgXcQ"%string)) Missing Missing
                  (SelectData (Some (mkRoom 7 None None)))
                  (WriteData (mkRoom 7 (Some "https://youtu.be/dQw4w9WgXcQ"%string) None))
                  UpsertError)
               7 (mkRoom 7 (Some "https://youtu.be/dQw4w9WgXcQ"%string) None)
               (Some "https://youtu.be/dQw4w9WgXcQ"%string));
    reflexivity.
Defined.

(** X21: [POST /api/rooms] answers 400 without a non-empty string title,
    before it looks at the user, and 401 without a user id, in both cases
    without any query; once the room is inserted it answers 201 with the
    room and upserts the room's playback row paused at position 0, and the
    answer is the same whether that upsert succeeds, fails or throws; when
    the insert fails nothing is upserted. *)
Theorem X21_create_room trim title subject video_url created_by inserted upserted :
  let result := post_room trim title subject video_url created_by inserted upserted in
  (or_null title = None -> result = (ErrorReply 400, [])) /\
  (or_null title <> None -> or_null created_by = None -> result = (ErrorReply 401, [])) /\
  (forall created,
      or_null title <> None -> or_null created_by <> None ->
      inserted = WriteData created ->
      fst result = RoomReply 201 created /\
      upserts (snd result)
      = [mkPlaybackInit (id created) (or_null (room_video_url created)) false 0 0
                        (or_null (room_created_by created))]) /\
  (forall status, fst result = ErrorReply status -> upserts (snd result) = []) /\
  (forall upserted',
      fst (post_room trim title subject video_url created_by inserted upserted')
      = fst result).
Proof.
  intros result. subst result. unfold post_room.
  destruct (or_null title) as [t|], (or_null created_by) as [u|],
           inserted as [| |created], upserted;
    simpl; repeat split; intros;
    try discriminate; try reflexivity; try congruence;
    try (match goal with
         | |- context [match ?u with UpsertThrew => _ | _ => _ end] =>
             destruct u; reflexivity
         end).
Qed.

Lemma X21_witness :
  let created := mkRoom 12 (Some ""%string) (Some "u1"%string) in
  upserts (snd (post_room (fun s => s) (Some "Algebra"%string) None (Some ""%string)
                          (Some "u1"%string) (WriteData created) UpsertThrew))
  = [mkPlaybackInit 12 None false 0 0 (Some "u1"%string)].
Proof.
  cbv zeta.
  apply (proj1 (proj2 (proj2 (X21_create_room (fun s => s) (Some "Algebra"%string) None
                                (Some ""%string) (Some "u1"%string)
                                (WriteData (mkRoom 12 (Some ""%string) (Some "u1"%string)))
                                UpsertThrew)))
               (mkRoom 12 (Some ""%string) (Some "u1"%string)));
    [discriminate|discriminate|reflexivity].
Defined.

End RoomsFacts.

Module ControlsFacts.

Import PlaybackSync RoomsRoute VideoControls PlaybackFacts.
Local Open Scope float_scope.

(** X22: the playback row that the rooms routes write (paused, position 0)
    makes every participant that handles it in the Synced state, outside
    the guard window and with a full set of controls, pause its player last
    and, when its local time is more than [SEEK_THRESHOLD] away from 0,
    seek to 0 first; a participant for whom it is the first row seeks to 0
    and stays paused. *)
Theorem X22_reset_row_rewinds n v u stamp now r c localTime :
  playerControlRef r = Some c ->
  getCurrentTime c = Some localTime ->
  seekTo c = true ->
  setPlaying c = true ->
  let snap := snapshot_of (mkPlaybackInit n v false 0 0 u) stamp in
  (didInitRef r = true -> suppressEchoRef r = false ->
   effects_of (onRemoteUpdate (Some snap) now) r
   = (if exceeds_threshold (abs (localTime - 0))
      then [CallSeekTo 0; SetTimeout 200] else [])
     ++ [CallSetPlaying false] /\
   isPlayingRef (refs_after (onRemoteUpdate (Some snap) now) r) = false) /\
  (didInitRef r = false ->
   effects_of (onRemoteUpdate (Some snap) now) r
   = [CallSeekTo 0; CallSetPlaying false; SetTimeout 250] /\
   isPlayingRef (refs_after (onRemoteUpdate (Some snap) now) r) = false).
Proof.
  intros Hplayer Htime Hseek Hset snap. split.
  - intros Hinit Hopen. unfold effects_of, trace_of, refs_after.
    rewrite (onRemoteUpdate_later _ _ _ Hinit), (synced_open _ _ _ Hopen).
    rewrite reconcile_effects, reconcile_isPlaying, Hplayer.
    cbn [member_getCurrentTime member_seekTo member_setPlaying].
    rewrite Htime, Hseek, Hset, andb_true_r. split; reflexivity.
  - intros Hfirst. unfold effects_of, trace_of, refs_after.
    rewrite (onRemoteUpdate_first _ _ _ Hfirst), hydrate_effects, hydrate_refs, Hplayer.
    cbn [member_seekTo member_setPlaying]. rewrite Hseek, Hset. split; reflexivity.
Qed.

Lemma X22_witness :
  let c := mkControls (Some 95) true true in
  let r := mkRefs 0 None (Some c) true true false in
  let snap := snapshot_of (mkPlaybackInit 7 None false 0 0 None) StampMissing in
  effects_of (onRemoteUpdate (Some snap) 5000) r
  = [CallSeekTo 0; SetTimeout 200; CallSetPlaying false].
Proof.
  cbv zeta.
  exact (proj1 (proj1 (X22_reset_row_rewinds 7 None None StampMissing 5000
                         (mkRefs 0 None (Some (mkControls (Some 95) true true))
                                 true true false)
                         (mkControls (Some 95) true true) 95
                         eq_refl eq_refl eq_refl eq_refl)
                      eq_refl eq_refl)).
Defined.

(** X23: the controls that [VideoPlayer] registers always offer [seekTo],
    so the first row is never stashed in the pending slot; but while
    neither a YouTube player with a [seekTo] member nor a video element
    exists, the [seekTo] it is given makes no call on any player and
    [getCurrentTime] reads 0.  With a YouTube player that has [seekTo], the
    seek goes to it, and not to the video element. *)
Theorem X23_seek_without_player m r row now :
  didInitRef r = false ->
  playerControlRef r = Some (registered m) ->
  let h := onRemoteUpdate (Some row) now in
  let stored := number_or_zero (playback_time row) in
  seeks (effects_of h r) = [stored] /\
  pendingSeekRef (refs_after h r) = pendingSeekRef r /\
  (videoRef m = None ->
   (playerRef m = None \/ exists t, playerRef m = Some (mkYouTube false t)) ->
   forwarded (effects_of h r) m = []) /\
  (playerRef m = None -> videoRef m = None -> controls_getCurrentTime m = 0) /\
  (forall t, playerRef m = Some (mkYouTube true t) ->
             forwarded (effects_of h r) m = [YouTubeSeekTo stored]).
Proof.
  intros Hfirst Hplayer h stored. subst h stored.
  unfold forwarded, effects_of, trace_of, refs_after.
  rewrite (onRemoteUpdate_first _ _ _ Hfirst), hydrate_effects, hydrate_refs, Hplayer.
  cbn [registered member_seekTo member_setPlaying seekTo setPlaying app seeks flat_map].
  split; [reflexivity|]. split; [reflexivity|].
  unfold controls_seekTo, controls_getCurrentTime.
  split; [|split].
  - intros Hvideo [Hnone|(t & Hyt)]; rewrite ?Hnone, ?Hyt, Hvideo; reflexivity.
  - intros Hnone Hvideo. rewrite Hnone, Hvideo. reflexivity.
  - intros t Hyt. rewrite Hyt. reflexivity.
Qed.

Lemma X23_witness :
  let m := mkMedia None None in
  let r := mkRefs 0 None (Some (registered m)) false false false in
  let row := mkRow None true 42 (StampAt 0) None in
  seeks (effects_of (onRemoteUpdate (Some row) 1000) r) = [42] /\
  forwarded (effects_of (onRemoteUpdate (Some row) 1000) r) m = [].
Proof.
  cbv zeta.
  destruct (X23_seek_without_player (mkMedia None None)
              (mkRefs 0 None (Some (registered (mkMedia None None))) false false false)
              (mkRow None true 42 (StampAt 0) None) 1000 eq_refl eq_refl)
    as (Hseek & _ & Hdropped & _).
  split; [exact Hseek|]. apply Hdropped; [reflexivity|left; reflexivity].
Defined.

End ControlsFacts.
